(** * apfs-inspect: checkpoint resolution of an APFS container

    A shallow embedding of [main] of [src/apfs-inspect.c] and the properties
    of its checkpoint pipeline: reading block 0, loading the checkpoint
    descriptor area, scanning it for the latest container superblock,
    copying the (possibly wrapped) checkpoint out of the ring buffer,
    counting and fetching the ephemeral objects and validating them.

    Conventions of the embedding.
    - [uint32_t] values are integers in [Z] reduced with [u32] wherever the
      C arithmetic can wrap.  Byte sizes ([n * nx_block_size]) are computed
      in [size_t] and are not reduced.
    - An array of blocks is a [list]; an access outside an allocated buffer
      or through a null pointer, which is undefined in C, ends the run with
      the outcome [InvalidAccess].
    - [assert] is active: a failed assertion ends the run with
      [AssertionFailed].
    - The headers under [apfs/] are not part of the sources at hand; the
      structure fields, the predicates on blocks and the constants they
      declare are the members of the class [Layout]; [malloc] and
      [read_blocks] belong to the environment [world]. *)

From Stdlib Require Import ZArith List Bool Lia.
Import ListNotations.
Local Open Scope Z_scope.

(** ** Machine integers *)

Definition u32 (z : Z) : Z := z mod 2 ^ 32.

(** ** Copying a checkpoint out of the ring buffer (lines 162-172) *)

Section Ring.
Context {A : Type}.

(** [memcpy(dst, src + first, n * nx_block_size)]: the [n] blocks of [src]
    from index [first]; [None] when the source range leaves the array. *)
Definition memcpy_blocks (src : list A) (first n : Z) : option (list A) :=
  if (0 <=? first) && (0 <=? n) && (first + n <=? Z.of_nat (length src))
  then Some (firstn (Z.to_nat n) (skipn (Z.to_nat first) src))
  else None.

(** The two branches that fill [xp], a buffer of [len] blocks, from
    [xp_desc]; [idx] and [len] are [nx_xp_desc_index] and [nx_xp_desc_len]
    of the selected superblock. *)
Definition copy_checkpoint (xp_desc : list A) (xp_desc_blocks idx len : Z)
  : option (list A) :=
  if u32 (idx + len) <=? xp_desc_blocks then
    memcpy_blocks xp_desc idx len
  else
    let segment_1_len := u32 (xp_desc_blocks - idx) in
    let segment_2_len := u32 (len - segment_1_len) in
    match memcpy_blocks xp_desc idx segment_1_len,
          memcpy_blocks xp_desc 0 segment_2_len with
    | Some seg1, Some seg2 =>
        (* both copies must also fit in the [len] blocks of [xp] *)
        if segment_1_len + segment_2_len <=? len
        then Some (seg1 ++ seg2) else None
    | _, _ => None
    end.

(** The blocks [lo, lo + n) of an array, as the specification names them;
    shorter when the array ends before [lo + n]. *)
Definition blocks_from (l : list A) (lo n : Z) : list A :=
  firstn (Z.to_nat n) (skipn (Z.to_nat lo) l).

(** The extraction property in the words of the specification, for a
    descriptor area [xp_desc] and a request [(idx, len)]. *)
Definition extraction_as_specified (xp_desc : list A) (idx len : Z) : Prop :=
  let block_count := Z.of_nat (length xp_desc) in
  (idx + len <= block_count ->
     copy_checkpoint xp_desc block_count idx len
     = Some (blocks_from xp_desc idx len))
  /\ (idx + len > block_count ->
     exists xp,
       copy_checkpoint xp_desc block_count idx len = Some xp
       /\ xp = blocks_from xp_desc idx (block_count - idx)
               ++ blocks_from xp_desc 0 (len - (block_count - idx))
       /\ Z.of_nat (length xp) = len).

End Ring.

(** ** On-disk layout

    What the program takes from the headers under [apfs/]: the block size,
    the constants, the predicates on a block and the fields of the
    structures a block is cast to.  A field of type [uint32_t] comes with
    its range. *)

Class Layout (block : Type) : Type := {
  (* apfs/io.h *)
  nx_block_size : Z;
  (* apfs/struct/nx.h, apfs/struct/object.h *)
  NX_MAGIC : Z;
  NX_MAX_FILE_SYSTEMS : Z;
  OBJ_STORAGETYPE_MASK : Z;
  OBJ_PHYSICAL : Z;
  (* apfs/func/cksum.h, apfs/func/boolean.h *)
  is_cksum_valid : block -> bool;
  is_nx_superblock : block -> bool;
  is_checkpoint_map_phys : block -> bool;
  (* obj_phys_t and nx_superblock_t *)
  o_xid : block -> Z;
  nx_magic : block -> Z;
  nx_xp_desc_blocks : block -> Z;
  nx_xp_desc_base : block -> Z;
  nx_xp_desc_index : block -> Z;
  nx_xp_desc_len : block -> Z;
  nx_omap_oid : block -> Z;
  nx_fs_oid : block -> Z -> Z;
  (* checkpoint_map_phys_t: the entry count and the [cpm_paddr] of the
     entries of [cpm_map] that lie inside the block *)
  cpm_count : block -> Z;
  cpm_map : block -> list Z;
  (* omap_phys_t *)
  om_tree_type : block -> Z;
  om_tree_oid : block -> Z;
  (* ranges of the uint32_t fields *)
  nx_xp_desc_blocks_u32 : forall b, 0 <= nx_xp_desc_blocks b < 2 ^ 32;
  nx_xp_desc_index_u32 : forall b, 0 <= nx_xp_desc_index b < 2 ^ 32;
  nx_xp_desc_len_u32 : forall b, 0 <= nx_xp_desc_len b < 2 ^ 32;
  cpm_count_u32 : forall b, 0 <= cpm_count b < 2 ^ 32
}.

(** ** Environment, events and outcomes *)

(** The buffers [main] allocates, by the name of the C variable. *)
Inductive buffer : Type :=
| Buf_nxsb | Buf_xp_desc | Buf_xp | Buf_xp_obj | Buf_nx_omap | Buf_nx_omap_btree.

(** The environment of one run: [argc], the result of [fopen] ([None] on
    success, the [errno] otherwise), whether [malloc] of so many bytes for a
    buffer succeeds, and the blocks [read_blocks addr count] delivers (its
    return value is their number). *)
Record world (block : Type) : Type := {
  argc : Z;
  fopen_errno : option Z;
  malloc_ok : buffer -> Z -> bool;
  read_blocks : Z -> Z -> list block
}.
Arguments argc {block} _.
Arguments fopen_errno {block} _.
Arguments malloc_ok {block} _ _ _.
Arguments read_blocks {block} _ _ _.

(** What the program prints, one constructor per diagnostic; the comment
    gives the source line.  Headings and separator lines are left out.  The
    [Info_] messages stand for the calls of the rendering functions of
    [apfs/string/].  [Abort_read_omap] is printed when the read of the
    object map fails, although its text speaks of memory. *)
Inductive message (block : Type) : Type :=
| Incorrect_arguments                      (* 32 *)
| Opening_file                             (* 39 *)
| Abort_fopen                              (* 42 *)
| Open_ok                                  (* 47 *)
| Abort_alloc_block_buf                    (* 55 *)
| Abort_read_block0                        (* 60 *)
| Block0_cksum_ok                          (* 66 *)
| Block0_cksum_failed                      (* 68 *)
| Info_nx_superblock (b : block)           (* 73, 145, 185 *)
| Block0_not_superblock                    (* 78 *)
| Block0_bad_magic                         (* 81 *)
| Desc_length (n : Z)                      (* 87 *)
| Abort_alloc_xp_desc (n : Z)              (* 91 *)
| Desc_not_contiguous (oid : Z)            (* 96, 97 *)
| End_indirect_not_implemented             (* 98 *)
| Desc_contiguous (base : Z)               (* 101, 102 *)
| Abort_read_xp_desc                       (* 106 *)
| Desc_loaded                              (* 109 *)
| Warn_cksum (i : Z)                       (* 117 *)
| Warn_magic (i : Z)                       (* 123 *)
| Error_not_nx_or_cpm (i : Z)              (* 131 *)
| Latest_at (i : Z)                        (* 141 *)
| Checkpoint_span (idx len : Z)            (* 147 *)
| Abort_alloc_xp                           (* 158 *)
| Xp_loaded                                (* 173 *)
| Info_checkpoint_map (b : block)          (* 188 *)
| Info_mappings (b : block)                (* 199 *)
| Mapping_count (n : Z)                    (* 203 *)
| Abort_alloc_xp_obj                       (* 208 *)
| Abort_read_block (paddr : Z)             (* 217, 290 *)
| Xp_obj_read                              (* 224 *)
| Ephemeral_failed                         (* 230, 231 *)
| End_malformed_not_implemented            (* 234, 267 *)
| Ephemeral_ok                             (* 238 *)
| Info_obj_hdr (b : block)                 (* 246 *)
| Omap_oid (oid : Z)                       (* 251 *)
| Abort_read_omap                          (* 256 *)
| Omap_loaded                              (* 259 *)
| Omap_failed                              (* 263, 264 *)
| Omap_ok                                  (* 270 *)
| Info_omap (b : block)                    (* 274 *)
| End_omap_not_physical                    (* 279 *)
| Abort_alloc_omap_btree                   (* 286 *)
| Btree_loaded                             (* 293 *)
| Btree_cksum_failed                       (* 297 *)
| Btree_cksum_ok                           (* 299 *)
| Info_btree_node (b : block)              (* 304 *)
| Volume_count (n : Z)                     (* 315 *)
| Volume_oid (oid : Z)                     (* 317 *)
| End_all_done.                            (* 327 *)

Arguments Incorrect_arguments {block}.
Arguments Opening_file {block}.
Arguments Abort_fopen {block}.
Arguments Open_ok {block}.
Arguments Abort_alloc_block_buf {block}.
Arguments Abort_read_block0 {block}.
Arguments Block0_cksum_ok {block}.
Arguments Block0_cksum_failed {block}.
Arguments Info_nx_superblock {block} b.
Arguments Block0_not_superblock {block}.
Arguments Block0_bad_magic {block}.
Arguments Desc_length {block} n.
Arguments Abort_alloc_xp_desc {block} n.
Arguments Desc_not_contiguous {block} oid.
Arguments End_indirect_not_implemented {block}.
Arguments Desc_contiguous {block} base.
Arguments Abort_read_xp_desc {block}.
Arguments Desc_loaded {block}.
Arguments Warn_cksum {block} i.
Arguments Warn_magic {block} i.
Arguments Error_not_nx_or_cpm {block} i.
Arguments Latest_at {block} i.
Arguments Checkpoint_span {block} idx len.
Arguments Abort_alloc_xp {block}.
Arguments Xp_loaded {block}.
Arguments Info_checkpoint_map {block} b.
Arguments Info_mappings {block} b.
Arguments Mapping_count {block} n.
Arguments Abort_alloc_xp_obj {block}.
Arguments Abort_read_block {block} paddr.
Arguments Xp_obj_read {block}.
Arguments Ephemeral_failed {block}.
Arguments End_malformed_not_implemented {block}.
Arguments Ephemeral_ok {block}.
Arguments Info_obj_hdr {block} b.
Arguments Omap_oid {block} oid.
Arguments Abort_read_omap {block}.
Arguments Omap_loaded {block}.
Arguments Omap_failed {block}.
Arguments Omap_ok {block}.
Arguments Info_omap {block} b.
Arguments End_omap_not_physical {block}.
Arguments Abort_alloc_omap_btree {block}.
Arguments Btree_loaded {block}.
Arguments Btree_cksum_failed {block}.
Arguments Btree_cksum_ok {block}.
Arguments Info_btree_node {block} b.
Arguments Volume_count {block} n.
Arguments Volume_oid {block} oid.
Arguments End_all_done {block}.

(** An observable step of a run: a call [read_blocks(buf, addr, count)] or a
    message. *)
Inductive event (block : Type) : Type :=
| Read (buf : buffer) (addr count : Z)
| Out (m : message block).
Arguments Read {block} buf addr count.
Arguments Out {block} m.

(** How a run ends: [main] returns a status, an [assert] fails, or memory is
    accessed outside an allocated buffer. *)
Inductive outcome : Type :=
| Returned (status : Z)
| AssertionFailed
| InvalidAccess.

(** ** The monad of runs: a trace of events and either a value to go on
    with or the outcome that ended the run. *)

Inductive step (A : Type) : Type :=
| Next (a : A)
| Stop (o : outcome).
Arguments Next {A} a.
Arguments Stop {A} o.

Definition run (block A : Type) : Type := (list (event block) * step A)%type.

Definition ret {block A} (a : A) : run block A := ([], Next a).

Definition bind {block A B} (m : run block A) (f : A -> run block B)
  : run block B :=
  match snd m with
  | Next a => (fst m ++ fst (f a), snd (f a))
  | Stop o => (fst m, Stop o)
  end.

Definition emit {block} (e : event block) : run block unit := ([e], Next tt).
Definition print {block} (m : message block) : run block unit := emit (Out m).
Definition stop {block A} (o : outcome) : run block A := ([], Stop o).

Declare Scope run_scope.
Delimit Scope run_scope with run.
Notation "x <- c ;; k" := (bind c (fun x => k))
  (at level 61, c at next level, right associativity) : run_scope.
Notation "c ;; k" := (bind c (fun _ => k))
  (at level 61, right associativity) : run_scope.
Local Open Scope run_scope.

(** The [read_blocks] calls of a trace, in order. *)
Fixpoint reads {block} (t : list (event block)) : list (buffer * Z * Z) :=
  match t with
  | [] => []
  | Read buf addr count :: t' => (buf, addr, count) :: reads t'
  | Out _ :: t' => reads t'
  end.

(** The last message of a trace. *)
Fixpoint last_message {block} (t : list (event block)) (acc : option (message block))
  : option (message block) :=
  match t with
  | [] => acc
  | Out m :: t' => last_message t' (Some m)
  | Read _ _ _ :: t' => last_message t' acc
  end.

(** ** The program *)

Section Program.
Context {block : Type} {L : Layout block}.
Variable w : world block.

Local Abbreviation run := (run block).

(** [malloc(bytes)] for the buffer [buf], with the test that follows it:
    a null pointer prints [msg] and returns -1. *)
Definition alloc (buf : buffer) (bytes : Z) (msg : message block) : run unit :=
  if malloc_ok w buf bytes then ret tt
  else print msg ;; stop (Returned (-1)).

(** A call [read_blocks(buf, addr, count)]. *)
Definition read (buf : buffer) (addr count : Z) : run (list block) :=
  emit (Read buf addr count) ;; ret (read_blocks w addr count).

(** [a[i]] for an array of blocks. *)
Definition index (a : list block) (i : Z) : run block :=
  match nth_error a (Z.to_nat i) with
  | Some b => ret b
  | None => stop InvalidAccess
  end.

(** Lines 53-82: block 0 is read into [nxsb]; a bad checksum, type or
    magic number is reported and the run goes on. *)
Definition read_block0 : run block :=
  alloc Buf_nxsb nx_block_size Abort_alloc_block_buf ;;
  bs <- read Buf_nxsb 0 1 ;;
  match bs with
  | [nxsb] =>
      print (if is_cksum_valid nxsb then Block0_cksum_ok else Block0_cksum_failed) ;;
      print (Info_nx_superblock nxsb) ;;
      (if negb (is_nx_superblock nxsb) then print Block0_not_superblock else ret tt) ;;
      (if negb (nx_magic nxsb =? NX_MAGIC) then print Block0_bad_magic else ret tt) ;;
      ret nxsb
  | _ => print Abort_read_block0 ;; stop (Returned (-1))
  end.

(** Line 86: [nxsb->nx_xp_desc_blocks & ~(1 << 31)]. *)
Definition xp_desc_blocks_of (nxsb : block) : Z :=
  Z.land (nx_xp_desc_blocks nxsb) (Z.lnot (Z.shiftl 1 31)).

(** Line 95: [nxsb->nx_xp_desc_blocks >> 31]. *)
Definition xp_desc_is_indirect (nxsb : block) : bool :=
  negb (Z.shiftr (nx_xp_desc_blocks nxsb) 31 =? 0).

(** Lines 84-110: the checkpoint descriptor area is allocated, then either
    reported as not contiguous (the run ends) or read into [xp_desc]. *)
Definition locate_xp_desc (nxsb : block) : run (list block) :=
  let xp_desc_blocks := xp_desc_blocks_of nxsb in
  print (Desc_length xp_desc_blocks) ;;
  alloc Buf_xp_desc (xp_desc_blocks * nx_block_size)
        (Abort_alloc_xp_desc xp_desc_blocks) ;;
  if xp_desc_is_indirect nxsb then
    print (Desc_not_contiguous (nx_xp_desc_base nxsb)) ;;
    print End_indirect_not_implemented ;;
    stop (Returned 0)
  else
    print (Desc_contiguous (nx_xp_desc_base nxsb)) ;;
    xp_desc <- read Buf_xp_desc (nx_xp_desc_base nxsb) xp_desc_blocks ;;
    if negb (Z.of_nat (length xp_desc) =? xp_desc_blocks) then
      print Abort_read_xp_desc ;; stop (Returned (-1))
    else
      print Desc_loaded ;; ret xp_desc.

(** Lines 115-134: the loop over the descriptor area.  [rest] holds the
    blocks from index [i] on; the result is the final [i_latest_nx]. *)
Fixpoint scan_xp_desc (xp_desc rest : list block) (i i_latest_nx : Z) : run Z :=
  match rest with
  | [] => ret i_latest_nx
  | b :: rest' =>
      if negb (is_cksum_valid b) then
        print (Warn_cksum i) ;;
        scan_xp_desc xp_desc rest' (i + 1) i_latest_nx
      else if is_nx_superblock b then
        if negb (nx_magic b =? NX_MAGIC) then
          print (Warn_magic i) ;;
          scan_xp_desc xp_desc rest' (i + 1) i_latest_nx
        else
          latest <- index xp_desc i_latest_nx ;;
          if o_xid b >? o_xid latest
          then scan_xp_desc xp_desc rest' (i + 1) i
          else scan_xp_desc xp_desc rest' (i + 1) i_latest_nx
      else if negb (is_checkpoint_map_phys b) then
        print (Error_not_nx_or_cpm i) ;;
        scan_xp_desc xp_desc rest' (i + 1) i_latest_nx
      else
        scan_xp_desc xp_desc rest' (i + 1) i_latest_nx
  end.

(** Lines 112-147: [i_latest_nx] starts at 0, the loop runs, and the block
    at [i_latest_nx] replaces [nxsb]. *)
Definition latest_nx (xp_desc : list block) : run (Z * block) :=
  i_latest_nx <- scan_xp_desc xp_desc xp_desc 0 0 ;;
  nxsb <- index xp_desc i_latest_nx ;;
  print (Latest_at i_latest_nx) ;;
  print (Info_nx_superblock nxsb) ;;
  print (Checkpoint_span (nx_xp_desc_index nxsb) (nx_xp_desc_len nxsb)) ;;
  ret (i_latest_nx, nxsb).

(** Lines 153-173: [xp] is allocated and filled. *)
Definition load_xp (xp_desc : list block) (xp_desc_blocks : Z) (nxsb : block)
  : run (list block) :=
  alloc Buf_xp (nx_xp_desc_len nxsb * nx_block_size) Abort_alloc_xp ;;
  match copy_checkpoint xp_desc xp_desc_blocks
                        (nx_xp_desc_index nxsb) (nx_xp_desc_len nxsb) with
  | Some xp => print Xp_loaded ;; ret xp
  | None => stop InvalidAccess
  end.

(** Lines 183-191: every block of the checkpoint is rendered as a
    superblock or, under the assertion, as a checkpoint map. *)
Fixpoint describe_xp (xp : list block) : run unit :=
  match xp with
  | [] => ret tt
  | b :: xp' =>
      (if is_nx_superblock b then print (Info_nx_superblock b)
       else if is_checkpoint_map_phys b then print (Info_checkpoint_map b)
       else stop AssertionFailed) ;;
      describe_xp xp'
  end.

(** Lines 197-202: [xp_obj_len += cpm_count] over the checkpoint maps. *)
Fixpoint count_mappings (xp : list block) (xp_obj_len : Z) : run Z :=
  match xp with
  | [] => ret xp_obj_len
  | b :: xp' =>
      if is_checkpoint_map_phys b then
        print (Info_mappings b) ;;
        count_mappings xp' (u32 (xp_obj_len + cpm_count b))
      else count_mappings xp' xp_obj_len
  end.

(** Lines 215-221: the inner loop over the mappings of one checkpoint map,
    [n] iterations from index [j].  [xp_obj] holds the blocks read so far
    ([num_read] is its length) out of a buffer of [xp_obj_len] blocks. *)
Fixpoint read_mappings (xp_obj_len : Z) (xp_map : block) (n : nat) (j : Z)
         (xp_obj : list block) : run (list block) :=
  match n with
  | O => ret xp_obj
  | S n' =>
      match nth_error (cpm_map xp_map) (Z.to_nat j) with
      | None => stop InvalidAccess
      | Some cpm_paddr =>
          if Z.of_nat (length xp_obj) <? xp_obj_len then
            bs <- read Buf_xp_obj cpm_paddr 1 ;;
            match bs with
            | [o] => read_mappings xp_obj_len xp_map n' (j + 1) (xp_obj ++ [o])
            | _ => print (Abort_read_block cpm_paddr) ;; stop (Returned (-1))
            end
          else stop InvalidAccess
      end
  end.

(** Lines 212-223: the outer loop over the blocks of the checkpoint. *)
Fixpoint read_xp_obj (xp_obj_len : Z) (xp : list block) (xp_obj : list block)
  : run (list block) :=
  match xp with
  | [] => ret xp_obj
  | b :: xp' =>
      if is_checkpoint_map_phys b then
        xp_obj' <- read_mappings xp_obj_len b (Z.to_nat (cpm_count b)) 0 xp_obj ;;
        read_xp_obj xp_obj_len xp' xp_obj'
      else read_xp_obj xp_obj_len xp' xp_obj
  end.

(** Lines 193-225: the mappings are counted, [xp_obj] is allocated and
    filled, and [assert(num_read = xp_obj_len)] is evaluated: it assigns,
    so it fails exactly when [xp_obj_len] is zero. *)
Definition load_xp_obj (xp : list block) : run (list block) :=
  xp_obj_len <- count_mappings xp 0 ;;
  print (Mapping_count xp_obj_len) ;;
  alloc Buf_xp_obj (xp_obj_len * nx_block_size) Abort_alloc_xp_obj ;;
  xp_obj <- read_xp_obj xp_obj_len xp [] ;;
  print Xp_obj_read ;;
  (if xp_obj_len =? 0 then stop AssertionFailed else ret tt) ;;
  ret xp_obj.

(** Lines 228-237: the first ephemeral object with a bad checksum ends the
    run.  The loop runs over the [xp_obj_len] blocks of [xp_obj]; these are
    the blocks read, since a loading loop that completes has read exactly
    [xp_obj_len] of them. *)
Fixpoint validate_xp_obj (xp_obj : list block) : run unit :=
  match xp_obj with
  | [] => ret tt
  | o :: xp_obj' =>
      if negb (is_cksum_valid o) then
        print Ephemeral_failed ;;
        print End_malformed_not_implemented ;;
        stop (Returned 0)
      else validate_xp_obj xp_obj'
  end.

(** Lines 245-248. *)
Fixpoint describe_xp_obj (xp_obj : list block) : run unit :=
  match xp_obj with
  | [] => ret tt
  | o :: xp_obj' => print (Info_obj_hdr o) ;; describe_xp_obj xp_obj'
  end.

(** Lines 309-314: the entries of [nx_fs_oid] before the first zero, at
    most [n] of them from index [i]. *)
Fixpoint count_file_systems (nxsb : block) (n : nat) (i : Z) (num_file_systems : Z) : Z :=
  match n with
  | O => num_file_systems
  | S n' =>
      if nx_fs_oid nxsb i =? 0 then num_file_systems
      else count_file_systems nxsb n' (i + 1) (num_file_systems + 1)
  end.

(** Lines 316-318. *)
Fixpoint print_file_systems (nxsb : block) (n : nat) (i : Z) : run unit :=
  match n with
  | O => ret tt
  | S n' => print (Volume_oid (nx_fs_oid nxsb i)) ;; print_file_systems nxsb n' (i + 1)
  end.

(** Lines 53-173: from block 0 to the copy [xp] of the checkpoint of the
    selected superblock [nxsb]. *)
Definition materialize : run (block * list block) :=
  nxsb0 <- read_block0 ;;
  xp_desc <- locate_xp_desc nxsb0 ;;
  sel <- latest_nx xp_desc ;;
  let nxsb := snd sel in
  xp <- load_xp xp_desc (xp_desc_blocks_of nxsb0) nxsb ;;
  ret (nxsb, xp).

(** Lines 53-225: everything up to the point where the ephemeral objects
    of the selected checkpoint have been read. *)
Definition checkpoint_phase : run (block * list block) :=
  p <- materialize ;;
  describe_xp (snd p) ;;
  xp_obj <- load_xp_obj (snd p) ;;
  ret (fst p, xp_obj).

(** Lines 227-329: the ephemeral objects are validated, then the container
    object map and the root of its B-tree are read and the volumes are
    listed.  [nx_omap] is allocated without a test of the pointer, so a
    failed [malloc] there makes [read_blocks] write through a null
    pointer. *)
Definition omap_phase (nxsb : block) (xp_obj : list block) : run unit :=
  validate_xp_obj xp_obj ;;
  print Ephemeral_ok ;;
  describe_xp_obj xp_obj ;;
  print (Omap_oid (nx_omap_oid nxsb)) ;;
  (if malloc_ok w Buf_nx_omap nx_block_size then ret tt else stop InvalidAccess) ;;
  bs <- read Buf_nx_omap (nx_omap_oid nxsb) 1 ;;
  match bs with
  | [nx_omap] =>
      print Omap_loaded ;;
      if negb (is_cksum_valid nx_omap) then
        print Omap_failed ;;
        print End_malformed_not_implemented ;;
        stop (Returned 0)
      else
        print Omap_ok ;;
        print (Info_omap nx_omap) ;;
        if negb (Z.land (om_tree_type nx_omap) OBJ_STORAGETYPE_MASK =? OBJ_PHYSICAL) then
          print End_omap_not_physical ;; stop (Returned 0)
        else
          alloc Buf_nx_omap_btree nx_block_size Abort_alloc_omap_btree ;;
          bs' <- read Buf_nx_omap_btree (om_tree_oid nx_omap) 1 ;;
          match bs' with
          | [nx_omap_btree] =>
              print Btree_loaded ;;
              print (if negb (is_cksum_valid nx_omap_btree)
                     then Btree_cksum_failed else Btree_cksum_ok) ;;
              print (Info_btree_node nx_omap_btree) ;;
              let num_file_systems :=
                count_file_systems nxsb (Z.to_nat NX_MAX_FILE_SYSTEMS) 0 0 in
              print (Volume_count num_file_systems) ;;
              print_file_systems nxsb (Z.to_nat num_file_systems) 0 ;;
              print End_all_done ;;
              stop (Returned 0)
          | _ => print (Abort_read_block (om_tree_oid nx_omap)) ;; stop (Returned (-1))
          end
  | _ => print Abort_read_omap ;; stop (Returned (-1))
  end.

(** Lines 49-329: the program once the container file is open. *)
Definition bootstrap : run unit :=
  p <- checkpoint_phase ;;
  omap_phase (fst p) (snd p).

(** Lines 27-329. *)
Definition main : run unit :=
  if negb (argc w =? 2) then
    print Incorrect_arguments ;; stop (Returned 1)
  else
    print Opening_file ;;
    match fopen_errno w with
    | Some errno => print Abort_fopen ;; stop (Returned (- errno))
    | None => print Open_ok ;; bootstrap
    end.

End Program.

(** ** Vocabulary of the specification *)

Section Vocabulary.
Context {block : Type} {L : Layout block}.

(** A candidate of the scan: the checksum validates, the block is a
    container superblock and its magic number is [NX_MAGIC]. *)
Definition candidate (b : block) : bool :=
  is_cksum_valid b && is_nx_superblock b && (nx_magic b =? NX_MAGIC).

(** A block that is a container superblock or a checkpoint map. *)
Definition nx_or_cpm (b : block) : bool :=
  is_nx_superblock b || is_checkpoint_map_phys b.

(** The sum of the recorded entry counts over the checkpoint maps of a
    checkpoint, in the integers. *)
Fixpoint sum_cpm_count (xp : list block) : Z :=
  match xp with
  | [] => 0
  | b :: xp' =>
      (if is_checkpoint_map_phys b then cpm_count b else 0) + sum_cpm_count xp'
  end.

(** The mappings of a checkpoint in collection order: for every checkpoint
    map, in block order, its first [cpm_count] entries. *)
Fixpoint mappings_of (xp : list block) : list Z :=
  match xp with
  | [] => []
  | b :: xp' =>
      (if is_checkpoint_map_phys b
       then firstn (Z.to_nat (cpm_count b)) (cpm_map b) else [])
      ++ mappings_of xp'
  end.

(** The reads that fetch the ephemeral objects at the addresses [paddrs],
    as a trace shows them. *)
Definition fetches (paddrs : list Z) : list (buffer * Z * Z) :=
  List.map (fun paddr => (Buf_xp_obj, paddr, 1)) paddrs.

(** The kinds of terminal outcome of section 7 of the specification, and
    running out of memory, which the program reports as well. *)
Inductive kind : Type :=
| IOError
| OutOfMemory
| UnsupportedLayout
| NoConsistentCheckpoint
| Completed.

(** The kind a closing message stands for. *)
Definition kind_of_message (m : message block) : option kind :=
  match m with
  | Abort_read_block0 | Abort_read_xp_desc | Abort_read_block _
  | Abort_read_omap => Some IOError
  | Abort_alloc_block_buf | Abort_alloc_xp_desc _ | Abort_alloc_xp
  | Abort_alloc_xp_obj | Abort_alloc_omap_btree => Some OutOfMemory
  | End_indirect_not_implemented | End_omap_not_physical => Some UnsupportedLayout
  | End_malformed_not_implemented => Some NoConsistentCheckpoint
  | End_all_done => Some Completed
  | _ => None
  end.

(** The kind of a run: that of its last message. *)
Definition kind_of_run {A} (r : run block A) : option kind :=
  match last_message (fst r) None with
  | Some m => kind_of_message m
  | None => None
  end.

(** The status [main] returns next to a closing message of each kind:
    -1 after [ABORT], 0 after [END]. *)
Definition status_of_kind (k : kind) : Z :=
  match k with
  | IOError | OutOfMemory => -1
  | UnsupportedLayout | NoConsistentCheckpoint | Completed => 0
  end.

(** A run whose returned status is the one that goes with the kind of
    its closing message. *)
Definition status_matches_kind {A} (r : run block A) : Prop :=
  forall c,
    snd r = Stop (Returned c) ->
    exists k, kind_of_run r = Some k /\ c = status_of_kind k.

(** The event is not a read of the container object map or of the root of
    its B-tree. *)
Definition not_omap_read (e : event block) : Prop :=
  match e with
  | Read buf _ _ => buf <> Buf_nx_omap /\ buf <> Buf_nx_omap_btree
  | Out _ => True
  end.

(** The claims that do not hold of the program, in the words of the
    specification. *)

(** Every block of a materialized checkpoint is a superblock or a
    checkpoint map. *)
Definition checkpoint_blocks_as_specified (w : world block) : Prop :=
  forall t nxsb xp,
    materialize w = (t, Next (nxsb, xp)) -> forallb nx_or_cpm xp = true.

(** A block 0 with the top bit of [nx_xp_desc_blocks] set: the run reports
    the indirect layout and stops, having read block 0 only. *)
Definition indirect_as_specified (w : world block) : Prop :=
  forall t nxsb,
    read_block0 w = (t, Next nxsb) ->
    Z.testbit (nx_xp_desc_blocks nxsb) 31 = true ->
    snd (bootstrap w) = Stop (Returned 0)
    /\ last_message (fst (bootstrap w)) None = Some End_indirect_not_implemented
    /\ reads (fst (bootstrap w)) = [(Buf_nxsb, 0, 1)].

(** The mapping count is the sum of the entry counts, and that many
    single-block reads are made to load the ephemeral objects. *)
Definition mapping_count_as_specified (w : world block) (xp : list block) : Prop :=
  forall t xp_obj_len,
    count_mappings xp 0 = (t, Next xp_obj_len) ->
    xp_obj_len = sum_cpm_count xp
    /\ Z.of_nat (length (reads (fst (read_xp_obj w xp_obj_len xp [])))) = xp_obj_len.

(** Runs of different kinds return different statuses. *)
Definition kinds_distinguished_by_status (w1 w2 : world block) : Prop :=
  forall c1 c2,
    snd (bootstrap w1) = Stop (Returned c1) ->
    snd (bootstrap w2) = Stop (Returned c2) ->
    kind_of_run (bootstrap w1) <> kind_of_run (bootstrap w2) ->
    c1 <> c2.

End Vocabulary.

(** ** Vocabulary of the further properties *)

Section ReadVocabulary.
Context {block : Type} {L : Layout block}.

(** What a read of the last stage of a run on the world [w] with the
    selected superblock [nxsb] must look like: one block into [nx_omap] from
    the address the superblock names, or one block into [nx_omap_btree] from
    the address named by the object map read there, whose checksum is valid
    and whose B-tree is of the physical storage type. *)
Definition omap_read_ok (w : world block) (nxsb : block) (e : event block) : Prop :=
  match e with
  | Read buf addr count =>
      (buf = Buf_nx_omap /\ addr = nx_omap_oid nxsb /\ count = 1)
      \/ (buf = Buf_nx_omap_btree /\ count = 1
          /\ exists nx_omap,
               read_blocks w (nx_omap_oid nxsb) 1 = [nx_omap]
               /\ is_cksum_valid nx_omap = true
               /\ Z.land (om_tree_type nx_omap) OBJ_STORAGETYPE_MASK = OBJ_PHYSICAL
               /\ addr = om_tree_oid nx_omap)
  | Out _ => True
  end.

(** The event is a message. *)
Definition is_message (e : event block) : Prop :=
  match e with
  | Read _ _ _ => False
  | Out _ => True
  end.

End ReadVocabulary.

(** ** A concrete layout for examples

    Blocks with the decoded fields spelled out, the constants of the Apple
    File System Reference, and a disk given as a list of addressed blocks. *)

Module Image.

Record blk : Type := {
  cksum_ok : bool;          (* does the stored checksum match the block? *)
  o_type : Z;
  xid : Z;
  magic : Z;
  desc_blocks : Z;
  desc_base : Z;
  desc_index : Z;
  desc_len : Z;
  omap_oid : Z;
  fs_oid : list Z;
  count : Z;
  map : list Z;
  tree_type : Z;
  tree_oid : Z
}.

Definition OBJECT_TYPE_MASK : Z := 0xffff.
Definition OBJECT_TYPE_NX_SUPERBLOCK : Z := 0x1.
Definition OBJECT_TYPE_BTREE : Z := 0x2.
Definition OBJECT_TYPE_SPACEMAN : Z := 0x5.
Definition OBJECT_TYPE_OMAP : Z := 0xb.
Definition OBJECT_TYPE_CHECKPOINT_MAP : Z := 0xc.
Definition STORAGE_EPHEMERAL : Z := 0x80000000.   (* OBJ_EPHEMERAL *)
Definition STORAGE_PHYSICAL : Z := 0x40000000.    (* OBJ_PHYSICAL *)
Definition NXSB : Z := 0x4253584e.

#[global] Instance layout : Layout blk.
Proof.
  refine {|
    nx_block_size := 4096;
    NX_MAGIC := NXSB;
    NX_MAX_FILE_SYSTEMS := 100;
    OBJ_STORAGETYPE_MASK := 0xc0000000;
    OBJ_PHYSICAL := STORAGE_PHYSICAL;
    is_cksum_valid := cksum_ok;
    is_nx_superblock := fun b =>
      Z.land (o_type b) OBJECT_TYPE_MASK =? OBJECT_TYPE_NX_SUPERBLOCK;
    is_checkpoint_map_phys := fun b =>
      Z.land (o_type b) OBJECT_TYPE_MASK =? OBJECT_TYPE_CHECKPOINT_MAP;
    o_xid := xid;
    nx_magic := magic;
    nx_xp_desc_blocks := fun b => u32 (desc_blocks b);
    nx_xp_desc_base := desc_base;
    nx_xp_desc_index := fun b => u32 (desc_index b);
    nx_xp_desc_len := fun b => u32 (desc_len b);
    nx_omap_oid := omap_oid;
    nx_fs_oid := fun b i => nth (Z.to_nat i) (fs_oid b) 0;
    cpm_count := fun b => u32 (count b);
    cpm_map := map;
    om_tree_type := tree_type;
    om_tree_oid := tree_oid
  |}; intros b; apply Z.mod_pos_bound; reflexivity.
Defined.

(** A block of zeroes with a good or bad checksum. *)
Definition blank (ok : bool) : blk :=
  {| cksum_ok := ok; o_type := 0; xid := 0; magic := 0; desc_blocks := 0;
     desc_base := 0; desc_index := 0; desc_len := 0; omap_oid := 0;
     fs_oid := []; count := 0; map := []; tree_type := 0; tree_oid := 0 |}.

(** A well-formed container superblock of transaction [x]: a descriptor
    area of [blocks] blocks at [base], whose checkpoint is the [len]
    blocks from index [idx]; object map at [omap]; volumes [fs]. *)
Definition superblock (x blocks base idx len omap : Z) (fs : list Z) : blk :=
  {| cksum_ok := true; o_type := STORAGE_EPHEMERAL + OBJECT_TYPE_NX_SUPERBLOCK;
     xid := x; magic := NXSB; desc_blocks := blocks; desc_base := base;
     desc_index := idx; desc_len := len; omap_oid := omap; fs_oid := fs;
     count := 0; map := []; tree_type := 0; tree_oid := 0 |}.

(** A well-formed checkpoint map of transaction [x] with [n] mappings
    recorded, to the addresses [paddrs]. *)
Definition checkpoint_map (x n : Z) (paddrs : list Z) : blk :=
  {| cksum_ok := true; o_type := STORAGE_PHYSICAL + OBJECT_TYPE_CHECKPOINT_MAP;
     xid := x; magic := 0; desc_blocks := 0; desc_base := 0;
     desc_index := 0; desc_len := 0; omap_oid := 0; fs_oid := [];
     count := n; map := paddrs; tree_type := 0; tree_oid := 0 |}.

(** An ephemeral object (a space manager, say) of transaction [x]. *)
Definition ephemeral (ok : bool) (x : Z) : blk :=
  {| cksum_ok := ok; o_type := STORAGE_EPHEMERAL + OBJECT_TYPE_SPACEMAN;
     xid := x; magic := 0; desc_blocks := 0; desc_base := 0;
     desc_index := 0; desc_len := 0; omap_oid := 0; fs_oid := [];
     count := 0; map := []; tree_type := 0; tree_oid := 0 |}.

(** A container object map whose B-tree of storage type [ty] has its root
    at [root]. *)
Definition object_map (x ty root : Z) : blk :=
  {| cksum_ok := true; o_type := STORAGE_PHYSICAL + OBJECT_TYPE_OMAP;
     xid := x; magic := 0; desc_blocks := 0; desc_base := 0;
     desc_index := 0; desc_len := 0; omap_oid := 0; fs_oid := [];
     count := 0; map := []; tree_type := ty; tree_oid := root |}.

Definition btree_root (x : Z) : blk :=
  {| cksum_ok := true; o_type := STORAGE_PHYSICAL + OBJECT_TYPE_BTREE;
     xid := x; magic := 0; desc_blocks := 0; desc_base := 0;
     desc_index := 0; desc_len := 0; omap_oid := 0; fs_oid := [];
     count := 0; map := []; tree_type := 0; tree_oid := 0 |}.

Definition with_cksum (ok : bool) (b : blk) : blk :=
  {| cksum_ok := ok; o_type := o_type b; xid := xid b; magic := magic b;
     desc_blocks := desc_blocks b; desc_base := desc_base b;
     desc_index := desc_index b; desc_len := desc_len b;
     omap_oid := omap_oid b; fs_oid := fs_oid b; count := count b;
     map := map b; tree_type := tree_type b; tree_oid := tree_oid b |}.

Definition with_magic (m : Z) (b : blk) : blk :=
  {| cksum_ok := cksum_ok b; o_type := o_type b; xid := xid b; magic := m;
     desc_blocks := desc_blocks b; desc_base := desc_base b;
     desc_index := desc_index b; desc_len := desc_len b;
     omap_oid := omap_oid b; fs_oid := fs_oid b; count := count b;
     map := map b; tree_type := tree_type b; tree_oid := tree_oid b |}.

(** A disk: the blocks that can be read, by address. *)
Definition disk : Type := list (Z * blk).

Fixpoint block_at (d : disk) (addr : Z) : option blk :=
  match d with
  | [] => None
  | (a, b) :: d' => if a =? addr then Some b else block_at d' addr
  end.

(** [read_blocks]: up to [n] consecutive blocks from [addr], stopping at
    the first that cannot be read. *)
Fixpoint read_from (d : disk) (addr : Z) (n : nat) : list blk :=
  match n with
  | O => []
  | S n' =>
      match block_at d addr with
      | Some b => b :: read_from d (addr + 1) n'
      | None => []
      end
  end.

(** A run on the disk [d] in which the file opens and [malloc] succeeds
    for requests below [limit] bytes. *)
Definition world_of (d : disk) (limit : Z) : world blk :=
  {| argc := 2;
     fopen_errno := None;
     malloc_ok := fun _ bytes => bytes <? limit;
     read_blocks := fun addr n => read_from d addr (Z.to_nat n) |}.

(** One tebibyte: more than any buffer of the examples but one. *)
Definition TiB : Z := 2 ^ 40.

(** Blocks at consecutive addresses from [base]. *)
Fixpoint place (base : Z) (bs : list blk) : disk :=
  match bs with
  | [] => []
  | b :: bs' => (base, b) :: place (base + 1) bs'
  end.

(** A healthy container: block 0, a descriptor area of four blocks at
    address 1 holding the checkpoints of transactions 11 and 12, two
    ephemeral objects, the object map and the root of its B-tree. *)
Definition healthy_area : list blk :=
  [ checkpoint_map 11 1 [10];
    superblock 11 4 1 0 2 20 [1026];
    checkpoint_map 12 2 [10; 11];
    superblock 12 4 1 2 2 20 [1026; 1028] ].

Definition healthy_rest : disk :=
  [ (10, ephemeral true 12); (11, ephemeral true 12);
    (20, object_map 12 STORAGE_PHYSICAL 21); (21, btree_root 12) ].

Definition healthy : disk :=
  (0, superblock 12 4 1 2 2 20 [1026; 1028]) :: place 1 healthy_area ++ healthy_rest.

(** *** Descriptor areas and disks of the examples *)

(** The first block has a bad checksum and the greatest transaction. *)
Definition area_corrupt_first : list blk :=
  [ with_cksum false (superblock 100 2 1 0 1 20 []);
    superblock 5 2 1 1 1 20 [] ].

(** The first block has a wrong magic number and the greatest
    transaction. *)
Definition area_bad_magic_first : list blk :=
  [ with_magic 0 (superblock 100 2 1 0 1 20 []);
    superblock 5 2 1 1 1 20 [] ].

(** The ring buffer with its latest checkpoint at the start: the
    checkpoint of transaction 12 in blocks 0 and 1, that of transaction 11
    in blocks 2 and 3. *)
Definition area_latest_first : list blk :=
  [ checkpoint_map 12 2 [10; 11];
    superblock 12 4 1 0 2 20 [1026; 1028];
    checkpoint_map 11 1 [10];
    superblock 11 4 1 2 2 20 [1026] ].

(** Scenario B of the specification: superblocks of transactions 10 and
    12 at the indices 1 and 3. *)
Definition area_scenario_b : list blk :=
  [ checkpoint_map 10 1 [10];
    superblock 10 4 1 0 2 20 [1026];
    checkpoint_map 12 2 [10; 11];
    superblock 12 4 1 2 2 20 [1026; 1028] ].

(** No well-formed superblock at all. *)
Definition area_no_superblock : list blk :=
  [ checkpoint_map 7 1 [10];
    with_cksum false (superblock 8 2 1 0 2 20 []) ].

(** A checkpoint of two blocks whose second block is neither a superblock
    nor a checkpoint map. *)
Definition stray : disk :=
  (0, superblock 12 2 1 0 2 20 [])
    :: place 1 [ superblock 12 2 1 0 2 20 []; ephemeral true 12 ].

(** Block 0 announces an indirect descriptor area: the flag with a count
    of four blocks, and the flag with every bit of the count set. *)
Definition indirect : disk :=
  [ (0, superblock 12 0x80000004 1 0 2 20 []) ].

Definition indirect_huge : disk :=
  [ (0, superblock 12 0xffffffff 1 0 2 20 []) ].

(** Two checkpoint maps that record [2^31] mappings each. *)
Definition xp_overflow : list blk :=
  [ checkpoint_map 12 (2 ^ 31) [10]; checkpoint_map 12 (2 ^ 31) [11] ].

(** A checkpoint with three mappings. *)
Definition xp_three : list blk :=
  [ checkpoint_map 12 3 [10; 11; 12]; superblock 12 4 1 2 2 20 [] ].

(** The healthy container with the block at address 11 unreadable. *)
Definition unreadable_11 : disk :=
  [ (10, ephemeral true 12); (12, ephemeral true 12) ].

(** The healthy container with the checksum of the second ephemeral object
    corrupted. *)
Definition corrupt_11 : disk :=
  (0, superblock 12 4 1 2 2 20 [1026; 1028])
    :: place 1 healthy_area
    ++ [ (10, ephemeral true 12); (11, ephemeral false 12);
         (20, object_map 12 STORAGE_PHYSICAL 21); (21, btree_root 12) ].

(** Block 0 announces a descriptor area of no blocks at all. *)
Definition empty_area : disk :=
  [ (0, superblock 12 0 1 0 0 20 []) ].

End Image.

(** * Properties *)

(** ** Machine integers *)

Lemma u32_small z : 0 <= z < 2 ^ 32 -> u32 z = z.
Proof. intros H. unfold u32. now apply Z.mod_small. Qed.

Lemma u32_range z : 0 <= u32 z < 2 ^ 32.
Proof. unfold u32. apply Z.mod_pos_bound. lia. Qed.

Lemma u32_le z : 0 <= z -> u32 z <= z.
Proof. intros H. unfold u32. apply Z.mod_le; lia. Qed.

Lemma u32_under z : - 2 ^ 32 <= z < 0 -> u32 z = z + 2 ^ 32.
Proof.
  intros H. unfold u32.
  replace z with ((z + 2 ^ 32) + (-1) * 2 ^ 32) at 1 by ring.
  rewrite Z.mod_add by lia. apply Z.mod_small. lia.
Qed.

Lemma u32_over z : 2 ^ 32 <= z < 2 * 2 ^ 32 -> u32 z = z - 2 ^ 32.
Proof.
  intros H. unfold u32.
  replace z with ((z - 2 ^ 32) + 1 * 2 ^ 32) at 1 by ring.
  rewrite Z.mod_add by lia. apply Z.mod_small. lia.
Qed.

(** ** The ring buffer *)

Section RingFacts.
Context {A : Type}.
Implicit Types (l src xp_desc : list A).

Lemma memcpy_blocks_Some src first n :
  0 <= first -> 0 <= n -> first + n <= Z.of_nat (length src) ->
  memcpy_blocks src first n = Some (blocks_from src first n).
Proof.
  intros Hf Hn Hb. unfold memcpy_blocks, blocks_from.
  replace (0 <=? first) with true by (symmetry; now apply Z.leb_le).
  replace (0 <=? n) with true by (symmetry; now apply Z.leb_le).
  replace (first + n <=? Z.of_nat (length src)) with true
    by (symmetry; now apply Z.leb_le).
  reflexivity.
Qed.

Lemma memcpy_blocks_None src first n :
  first + n > Z.of_nat (length src) -> memcpy_blocks src first n = None.
Proof.
  intros Hb. unfold memcpy_blocks.
  replace (first + n <=? Z.of_nat (length src)) with false
    by (symmetry; apply Z.leb_gt; lia).
  now rewrite andb_false_r.
Qed.

Lemma blocks_from_length l lo n :
  0 <= lo -> 0 <= n -> lo + n <= Z.of_nat (length l) ->
  Z.of_nat (length (blocks_from l lo n)) = n.
Proof.
  intros Hlo Hn Hb. unfold blocks_from.
  rewrite length_firstn, length_skipn. lia.
Qed.

Lemma blocks_from_tail l lo :
  0 <= lo ->
  blocks_from l lo (Z.of_nat (length l) - lo) = skipn (Z.to_nat lo) l.
Proof.
  intros Hlo. unfold blocks_from. apply firstn_all2.
  rewrite length_skipn. lia.
Qed.

(** The block at position [i] of a slice is the block at [lo + i]. *)
Lemma blocks_from_nth l lo n i :
  0 <= lo -> 0 <= i < n ->
  nth_error (blocks_from l lo n) (Z.to_nat i) = nth_error l (Z.to_nat (lo + i)).
Proof.
  intros Hlo Hi. unfold blocks_from.
  rewrite nth_error_firstn.
  replace (Z.to_nat i <? Z.to_nat n)%nat with true
    by (symmetry; apply Nat.ltb_lt; lia).
  rewrite nth_error_skipn. f_equal. lia.
Qed.

(** The non-wrapping path, boundary included. *)
Lemma copy_checkpoint_direct xp_desc idx len :
  0 <= idx -> 0 <= len ->
  idx + len <= Z.of_nat (length xp_desc) < 2 ^ 32 ->
  copy_checkpoint xp_desc (Z.of_nat (length xp_desc)) idx len
  = Some (blocks_from xp_desc idx len).
Proof.
  intros Hi Hl Hb. unfold copy_checkpoint.
  rewrite (u32_small (idx + len)) by lia.
  replace (idx + len <=? Z.of_nat (length xp_desc)) with true
    by (symmetry; apply Z.leb_le; lia).
  apply memcpy_blocks_Some; lia.
Qed.

(** The wrapping path. *)
Lemma copy_checkpoint_wrap xp_desc idx len :
  Z.of_nat (length xp_desc) < 2 ^ 31 ->
  0 <= idx <= Z.of_nat (length xp_desc) ->
  idx + len > Z.of_nat (length xp_desc) ->
  len - (Z.of_nat (length xp_desc) - idx) <= Z.of_nat (length xp_desc) ->
  copy_checkpoint xp_desc (Z.of_nat (length xp_desc)) idx len
  = Some (blocks_from xp_desc idx (Z.of_nat (length xp_desc) - idx)
          ++ blocks_from xp_desc 0 (len - (Z.of_nat (length xp_desc) - idx))).
Proof.
  set (bc := Z.of_nat (length xp_desc)). intros Hbc Hi Hw Hs.
  unfold copy_checkpoint. fold bc.
  rewrite (u32_small (idx + len)) by lia.
  replace (idx + len <=? bc) with false by (symmetry; apply Z.leb_gt; lia).
  cbv zeta.
  rewrite (u32_small (bc - idx)) by lia.
  rewrite (u32_small (len - (bc - idx))) by lia.
  rewrite memcpy_blocks_Some by (unfold bc in *; lia).
  rewrite memcpy_blocks_Some by (unfold bc in *; lia).
  replace (bc - idx + (len - (bc - idx)) <=? len) with true
    by (symmetry; apply Z.leb_le; lia).
  reflexivity.
Qed.

(** Outside these bounds a copy leaves the descriptor area. *)
Lemma copy_checkpoint_out_of_bounds xp_desc idx len :
  Z.of_nat (length xp_desc) < 2 ^ 31 ->
  0 <= idx < 2 ^ 32 -> 0 <= len < 2 ^ 32 ->
  idx > Z.of_nat (length xp_desc)
  \/ len - (Z.of_nat (length xp_desc) - idx) > Z.of_nat (length xp_desc) ->
  copy_checkpoint xp_desc (Z.of_nat (length xp_desc)) idx len = None.
Proof.
  set (bc := Z.of_nat (length xp_desc)). intros Hbc Hi Hl Hout.
  assert (Hsum : idx + len > bc) by (unfold bc in *; lia).
  unfold copy_checkpoint. fold bc.
  destruct (u32 (idx + len) <=? bc) eqn:E.
  - apply memcpy_blocks_None. fold bc. lia.
  - cbv zeta. apply Z.leb_gt in E.
    destruct (Z_le_gt_dec idx bc) as [Hle | Hgt].
    + rewrite (u32_small (bc - idx)) by (unfold bc in *; lia).
      assert (Hlen : len > bc - idx).
      { destruct (Z_lt_le_dec (idx + len) (2 ^ 32)) as [Hs | Hs].
        - rewrite u32_small in E by lia. lia.
        - lia. }
      rewrite (u32_small (len - (bc - idx))) by lia.
      rewrite (memcpy_blocks_None xp_desc 0) by (fold bc; lia).
      now destruct (memcpy_blocks xp_desc idx (bc - idx)).
    + rewrite (u32_under (bc - idx)) by (unfold bc in *; lia).
      rewrite (memcpy_blocks_None xp_desc idx) by (fold bc; lia).
      reflexivity.
Qed.

(** A copy that succeeds fills the [len] blocks of [xp], whatever the
    request. *)
Lemma copy_checkpoint_length xp_desc xp_desc_blocks idx len xp :
  0 <= len < 2 ^ 32 ->
  copy_checkpoint xp_desc xp_desc_blocks idx len = Some xp ->
  Z.of_nat (length xp) = len.
Proof.
  intros Hl. unfold copy_checkpoint, memcpy_blocks.
  destruct (u32 (idx + len) <=? xp_desc_blocks).
  - destruct ((0 <=? idx) && (0 <=? len) && (idx + len <=? Z.of_nat (length xp_desc)))
      eqn:E; [| discriminate].
    apply andb_true_iff in E as [E E3]. apply andb_true_iff in E as [E1 E2].
    apply Z.leb_le in E1, E2, E3. intros [= <-].
    rewrite length_firstn, length_skipn. lia.
  - cbv zeta.
    set (s1 := u32 (xp_desc_blocks - idx)). set (s2 := u32 (len - s1)).
    destruct ((0 <=? idx) && (0 <=? s1) && (idx + s1 <=? Z.of_nat (length xp_desc)))
      eqn:E; [| discriminate].
    apply andb_true_iff in E as [E E3]. apply andb_true_iff in E as [E1 E2].
    apply Z.leb_le in E1, E2, E3.
    destruct ((0 <=? 0) && (0 <=? s2) && (0 + s2 <=? Z.of_nat (length xp_desc)))
      eqn:F; [| discriminate].
    apply andb_true_iff in F as [F F3]. apply andb_true_iff in F as [F1 F2].
    apply Z.leb_le in F2, F3.
    destruct (s1 + s2 <=? len) eqn:G; [| discriminate].
    apply Z.leb_le in G. intros [= <-].
    rewrite length_app, !length_firstn, !length_skipn.
    assert (Hs2 : s2 = len - s1).
    { unfold s2. apply u32_small. lia. }
    simpl skipn. lia.
Qed.

(** C1, as amended.  For a descriptor area of fewer than [2^31] blocks and
    a request that stays inside it (the start index at most the block
    count, and at most one wrap-around, to a head no longer than the
    area), the copy yields exactly [len] blocks: the slice from [idx] to
    [idx + len] when [idx + len] is at most the block count (equality
    included), otherwise the tail from [idx] to the end of the area
    followed by the head of [len - (block_count - idx)] blocks.  The result
    is a plain array: its block [i] is block [(idx + i) mod block_count] of
    the area. *)
Theorem copy_checkpoint_in_bounds xp_desc idx len :
  Z.of_nat (length xp_desc) < 2 ^ 31 ->
  0 <= idx <= Z.of_nat (length xp_desc) ->
  0 <= len ->
  len - (Z.of_nat (length xp_desc) - idx) <= Z.of_nat (length xp_desc) ->
  exists xp,
    copy_checkpoint xp_desc (Z.of_nat (length xp_desc)) idx len = Some xp
    /\ Z.of_nat (length xp) = len
    /\ xp = (if idx + len <=? Z.of_nat (length xp_desc)
             then blocks_from xp_desc idx len
             else blocks_from xp_desc idx (Z.of_nat (length xp_desc) - idx)
                  ++ blocks_from xp_desc 0
                       (len - (Z.of_nat (length xp_desc) - idx)))
    /\ forall i, 0 <= i < len ->
         nth_error xp (Z.to_nat i)
         = nth_error xp_desc
             (Z.to_nat ((idx + i) mod Z.of_nat (length xp_desc))).
Proof.
  set (bc := Z.of_nat (length xp_desc)). intros Hbc Hi Hl Hs.
  destruct (idx + len <=? bc) eqn:E.
  - apply Z.leb_le in E.
    exists (blocks_from xp_desc idx len). repeat split.
    + apply copy_checkpoint_direct; fold bc; lia.
    + apply blocks_from_length; fold bc; lia.
    + intros i Hi'. rewrite blocks_from_nth by lia.
      now rewrite Z.mod_small by lia.
  - apply Z.leb_gt in E.
    eexists. split; [apply copy_checkpoint_wrap; fold bc; lia |].
    split; [| split; [reflexivity |]].
    + rewrite length_app, Nat2Z.inj_add.
      rewrite !blocks_from_length by (fold bc; lia). lia.
    + intros i Hi'. fold bc.
      assert (Htail : Z.of_nat (length (blocks_from xp_desc idx (bc - idx))) = bc - idx)
        by (apply blocks_from_length; fold bc; lia).
      destruct (Z_lt_le_dec i (bc - idx)) as [Hlt | Hge].
      * rewrite nth_error_app1 by lia.
        rewrite blocks_from_nth by lia. now rewrite Z.mod_small by lia.
      * rewrite nth_error_app2 by lia.
        replace (Z.to_nat i - length (blocks_from xp_desc idx (bc - idx)))%nat
          with (Z.to_nat (i - (bc - idx))) by lia.
        rewrite blocks_from_nth by lia.
        replace (idx + i) with ((i - (bc - idx)) + 1 * bc) by ring.
        rewrite Z.mod_add by lia. now rewrite Z.mod_small by lia.
Qed.

End RingFacts.

(** Scenario A of the specification: an area of four blocks, start 2,
    length 3. *)
Lemma copy_checkpoint_in_bounds_witness :
  exists xp,
    copy_checkpoint [100; 101; 102; 103] 4 2 3 = Some xp
    /\ Z.of_nat (length xp) = 3
    /\ xp = [102; 103; 100].
Proof.
  destruct (copy_checkpoint_in_bounds [100; 101; 102; 103] 2 3) as (xp & H1 & H2 & H3 & _);
    [ reflexivity | simpl; lia | lia | simpl; lia | ].
  exists xp. repeat split; assumption.
Defined.

(** C1, as stated, fails: from an area of four blocks the request
    [(2, 7)] would need a head of five blocks; the copy leaves the area. *)
Lemma extraction_as_specified_fails :
  ~ extraction_as_specified [100; 101; 102; 103] 2 7.
Proof.
  intros [_ H]. destruct H as (xp & Hcopy & _); [simpl; lia | ].
  vm_compute in Hcopy. discriminate.
Qed.

(** ** Runs *)

Section RunFacts.
Context {block : Type}.
Local Abbreviation run := (run block).

Lemma bind_next {A B} (m : run A) (f : A -> run B) t a :
  m = (t, Next a) -> bind m f = (t ++ fst (f a), snd (f a)).
Proof. intros ->. reflexivity. Qed.

Lemma bind_stop {A B} (m : run A) (f : A -> run B) t o :
  m = (t, Stop o) -> bind m f = (t, Stop o).
Proof. intros ->. reflexivity. Qed.

Lemma bind_inv_next {A B} (m : run A) (f : A -> run B) t b :
  bind m f = (t, Next b) ->
  exists t1 a t2, m = (t1, Next a) /\ f a = (t2, Next b) /\ t = t1 ++ t2.
Proof.
  destruct m as [t1 [a | o]]; unfold bind; simpl; intros H.
  - exists t1, a, (fst (f a)). destruct (f a) as [t2 s]; simpl in *.
    inversion H; subst. auto.
  - discriminate.
Qed.

Lemma bind_inv_stop {A B} (m : run A) (f : A -> run B) t o :
  bind m f = (t, Stop o) ->
  m = (t, Stop o)
  \/ exists t1 a t2, m = (t1, Next a) /\ f a = (t2, Stop o) /\ t = t1 ++ t2.
Proof.
  destruct m as [t1 [a | o']]; unfold bind; simpl; intros H.
  - right. exists t1, a, (fst (f a)). destruct (f a) as [t2 s]; simpl in *.
    inversion H; subst. auto.
  - left. inversion H; subst. reflexivity.
Qed.

Lemma Forall_bind {A B} (P : event block -> Prop) (m : run A) (f : A -> run B) :
  Forall P (fst m) -> (forall a, Forall P (fst (f a))) ->
  Forall P (fst (bind m f)).
Proof.
  intros Hm Hf. destruct m as [t [a | o]]; unfold bind; simpl in *.
  - apply Forall_app. auto.
  - assumption.
Qed.

Lemma reads_app (t1 t2 : list (event block)) :
  reads (t1 ++ t2) = reads t1 ++ reads t2.
Proof.
  induction t1 as [| [buf addr count | m] t1 IH]; simpl; try rewrite IH; reflexivity.
Qed.

Lemma last_message_app_out (t : list (event block)) m acc :
  last_message (t ++ [Out m]) acc = Some m.
Proof.
  revert acc. induction t as [| [buf addr count | m'] t IH]; intros acc; simpl; auto.
Qed.

Lemma reads_quiet (t : list (event block)) :
  Forall (fun e => match e with Read _ _ _ => False | Out _ => True end) t ->
  reads t = [].
Proof.
  induction 1 as [| [buf addr count | m] t He _ IH]; simpl; auto. contradiction.
Qed.

End RunFacts.

(** ** The stages of the program *)

Section ProgramFacts.
Context {block : Type} {L : Layout block}.
Implicit Types (w : world block) (xp xp_obj xp_desc : list block).

(** *** The assertion on the blocks of the checkpoint *)

(** C6, as amended.  The loop that renders the checkpoint gets past its
    assertion exactly when every block of the checkpoint is a container
    superblock or a checkpoint map; with any other block in the
    checkpoint the run ends there with a failed assertion.  (Nothing
    before the loop excludes such a block: the scan of the descriptor
    area only warns about it.) *)
Theorem describe_xp_asserts xp :
  snd (describe_xp xp)
  = if forallb nx_or_cpm xp then Next tt else Stop AssertionFailed.
Proof.
  induction xp as [| b xp IH]; simpl; [reflexivity |].
  unfold nx_or_cpm at 1.
  destruct (is_nx_superblock b); simpl.
  - unfold bind; simpl. exact IH.
  - destruct (is_checkpoint_map_phys b); simpl.
    + unfold bind; simpl. exact IH.
    + reflexivity.
Qed.

(** *** Validation of the ephemeral objects *)

Lemma validate_xp_obj_bad xp_obj o :
  In o xp_obj -> is_cksum_valid o = false ->
  validate_xp_obj xp_obj
  = ([Out Ephemeral_failed; Out End_malformed_not_implemented],
     Stop (Returned 0)).
Proof.
  intros Hin Hbad. induction xp_obj as [| a xp_obj IH]; [contradiction |].
  simpl. destruct (is_cksum_valid a) eqn:Ea; simpl.
  - destruct Hin as [-> | Hin]; [congruence | auto].
  - reflexivity.
Qed.

Lemma validate_xp_obj_good xp_obj :
  forallb is_cksum_valid xp_obj = true ->
  validate_xp_obj xp_obj = ([], Next tt).
Proof.
  induction xp_obj as [| a xp_obj IH]; simpl; [reflexivity |].
  intros H. apply andb_true_iff in H as [-> H]. simpl. auto.
Qed.

Lemma omap_phase_bad w nxsb xp_obj o :
  In o xp_obj -> is_cksum_valid o = false ->
  omap_phase w nxsb xp_obj
  = ([Out Ephemeral_failed; Out End_malformed_not_implemented],
     Stop (Returned 0)).
Proof.
  intros Hin Hbad. unfold omap_phase.
  erewrite bind_stop; [reflexivity |].
  eapply validate_xp_obj_bad; eassumption.
Qed.

Lemma main_opened w :
  argc w = 2 -> fopen_errno w = None ->
  main w = ([Out Opening_file; Out Open_ok] ++ fst (bootstrap w),
            snd (bootstrap w)).
Proof.
  intros Ha Hf. unfold main. rewrite Ha, Hf. reflexivity.
Qed.

(** C5.  Once the ephemeral objects of the checkpoint have all been
    fetched, a single object with a bad checksum, wherever it stands
    among them, ends the work on the whole checkpoint: the run reports
    the failure and returns at once, and no object, good or bad, is
    used any further. *)
Theorem bad_ephemeral_rejects_checkpoint w t nxsb xp_obj o :
  argc w = 2 -> fopen_errno w = None ->
  checkpoint_phase w = (t, Next (nxsb, xp_obj)) ->
  In o xp_obj -> is_cksum_valid o = false ->
  main w
  = ([Out Opening_file; Out Open_ok] ++ t
     ++ [Out Ephemeral_failed; Out End_malformed_not_implemented],
     Stop (Returned 0)).
Proof.
  intros Ha Hf Hphase Hin Hbad.
  rewrite main_opened by assumption.
  unfold bootstrap. rewrite (bind_next _ _ _ _ Hphase). simpl fst; simpl snd.
  rewrite (omap_phase_bad w nxsb xp_obj o Hin Hbad). reflexivity.
Qed.

End ProgramFacts.

(** The healthy container with the checksum of its second ephemeral object
    corrupted. *)
Lemma bad_ephemeral_rejects_checkpoint_witness :
  main (Image.world_of Image.corrupt_11 Image.TiB)
  = ([Out Opening_file; Out Open_ok]
     ++ fst (checkpoint_phase (Image.world_of Image.corrupt_11 Image.TiB))
     ++ [Out Ephemeral_failed; Out End_malformed_not_implemented],
     Stop (Returned 0)).
Proof.
  apply (bad_ephemeral_rejects_checkpoint
           (Image.world_of Image.corrupt_11 Image.TiB) _
           (Image.superblock 12 4 1 2 2 20 [1026; 1028])
           [Image.ephemeral true 12; Image.ephemeral false 12]
           (Image.ephemeral false 12)).
  - reflexivity.
  - reflexivity.
  - vm_compute. reflexivity.
  - simpl. auto.
  - reflexivity.
Defined.

(** C6, as stated, fails: the checkpoint of this container holds a block
    that is neither a superblock nor a checkpoint map, and the run ends
    with a failed assertion. *)
Lemma checkpoint_blocks_as_specified_fails :
  ~ checkpoint_blocks_as_specified (Image.world_of Image.stray Image.TiB)
  /\ snd (main (Image.world_of Image.stray Image.TiB)) = Stop AssertionFailed.
Proof.
  split; [| vm_compute; reflexivity].
  intros H.
  assert (E : exists t nxsb,
             materialize (Image.world_of Image.stray Image.TiB)
             = (t, Next (nxsb, [Image.superblock 12 2 1 0 2 20 [];
                                Image.ephemeral true 12]))).
  { eexists. eexists. vm_compute. reflexivity. }
  destruct E as (t & nxsb & E). apply H in E. vm_compute in E. discriminate.
Qed.

(** ** Which blocks a run reads *)

Section ReadFacts.
Context {block : Type} {L : Layout block}.
Implicit Types (w : world block) (xp xp_obj xp_desc : list block).

Local Ltac trace_step :=
  match goal with
  | |- Forall _ [] => apply Forall_nil
  | |- Forall _ (_ :: _) =>
      apply Forall_cons; [simpl; try (split; discriminate); exact I |]
  | |- Forall _ (fst (bind _ _)) => apply Forall_bind; [| intros ?]
  | |- Forall _ (fst (if ?c then _ else _)) => destruct c
  | |- Forall _ (fst (match ?x with _ => _ end)) => destruct x
  | |- Forall _ (fst (alloc _ _ _ _)) => unfold alloc
  | |- Forall _ (fst (read _ _ _ _)) => unfold read
  | |- Forall _ (fst (index _ _)) => unfold index
  | |- Forall _ (fst (print _)) => unfold print
  | |- Forall _ (fst (emit _)) => unfold emit; simpl fst
  | |- Forall _ (fst (ret _)) => unfold ret; simpl fst
  | |- Forall _ (fst (stop _)) => unfold stop; simpl fst
  end.

Lemma read_block0_reads w : Forall not_omap_read (fst (read_block0 w)).
Proof. unfold read_block0. repeat trace_step. Qed.

Lemma locate_xp_desc_reads w nxsb :
  Forall not_omap_read (fst (locate_xp_desc w nxsb)).
Proof. unfold locate_xp_desc. repeat trace_step. Qed.

Lemma scan_xp_desc_reads xp_desc rest i i_latest_nx :
  Forall not_omap_read (fst (scan_xp_desc xp_desc rest i i_latest_nx)).
Proof.
  revert i i_latest_nx.
  induction rest as [| b rest IH]; intros i i_latest_nx; simpl;
    repeat first [apply IH | trace_step].
Qed.

Lemma latest_nx_reads xp_desc : Forall not_omap_read (fst (latest_nx xp_desc)).
Proof.
  unfold latest_nx. apply Forall_bind; [apply scan_xp_desc_reads | intros ?].
  repeat trace_step.
Qed.

Lemma load_xp_reads w xp_desc n nxsb :
  Forall not_omap_read (fst (load_xp w xp_desc n nxsb)).
Proof. unfold load_xp. repeat trace_step. Qed.

Lemma describe_xp_reads xp : Forall not_omap_read (fst (describe_xp xp)).
Proof. induction xp as [| b xp IH]; simpl; repeat first [apply IH | trace_step]. Qed.

Lemma count_mappings_reads xp n :
  Forall not_omap_read (fst (count_mappings xp n)).
Proof.
  revert n. induction xp as [| b xp IH]; intros n; simpl;
    repeat first [apply IH | trace_step].
Qed.

Lemma read_mappings_reads w cap xp_map n j xp_obj :
  Forall not_omap_read (fst (read_mappings w cap xp_map n j xp_obj)).
Proof.
  revert j xp_obj. induction n as [| n IH]; intros j xp_obj; simpl;
    repeat first [apply IH | trace_step].
Qed.

Lemma read_xp_obj_reads w cap xp xp_obj :
  Forall not_omap_read (fst (read_xp_obj w cap xp xp_obj)).
Proof.
  revert xp_obj. induction xp as [| b xp IH]; intros xp_obj; simpl;
    repeat first [apply IH | apply read_mappings_reads | trace_step].
Qed.

Lemma load_xp_obj_reads w xp : Forall not_omap_read (fst (load_xp_obj w xp)).
Proof.
  unfold load_xp_obj.
  repeat first [apply count_mappings_reads | apply read_xp_obj_reads | trace_step].
Qed.

(** Up to the validation of the ephemeral objects no run reads the
    container object map or the root of its B-tree. *)
Lemma checkpoint_phase_reads w :
  Forall not_omap_read (fst (checkpoint_phase w)).
Proof.
  unfold checkpoint_phase, materialize.
  repeat first [ apply read_block0_reads | apply locate_xp_desc_reads
               | apply latest_nx_reads | apply load_xp_reads
               | apply describe_xp_reads | apply load_xp_obj_reads
               | trace_step ].
Qed.

(** C10.  When an ephemeral object fails the validation of its checksum,
    the run makes no call of [read_blocks] after the objects have been
    fetched: all that follows the fetches are the two messages that
    announce the failure, and the whole run reads neither the container
    object map nor the root of its B-tree. *)
Theorem no_read_after_bad_ephemeral w t nxsb xp_obj o :
  argc w = 2 -> fopen_errno w = None ->
  checkpoint_phase w = (t, Next (nxsb, xp_obj)) ->
  In o xp_obj -> is_cksum_valid o = false ->
  exists t',
    fst (main w) = [Out Opening_file; Out Open_ok] ++ t ++ t'
    /\ reads t' = []
    /\ Forall not_omap_read (fst (main w)).
Proof.
  intros Ha Hf Hphase Hin Hbad.
  rewrite main_opened by assumption.
  unfold bootstrap. rewrite (bind_next _ _ _ _ Hphase). simpl fst; simpl snd.
  rewrite (omap_phase_bad w nxsb xp_obj o Hin Hbad). simpl fst.
  exists [Out Ephemeral_failed; Out End_malformed_not_implemented].
  split; [reflexivity | split; [reflexivity |]].
  simpl fst. repeat (apply Forall_cons; [exact I |]).
  apply Forall_app. split.
  - pose proof (checkpoint_phase_reads w) as H. now rewrite Hphase in H.
  - repeat constructor.
Qed.

End ReadFacts.

(** The healthy container with the checksum of its second ephemeral object
    corrupted: the run reads block 0, the descriptor area and the two
    objects, and nothing else. *)
Lemma no_read_after_bad_ephemeral_witness :
  exists t',
    fst (main (Image.world_of Image.corrupt_11 Image.TiB))
    = [Out Opening_file; Out Open_ok]
      ++ fst (checkpoint_phase (Image.world_of Image.corrupt_11 Image.TiB)) ++ t'
    /\ reads t' = []
    /\ Forall not_omap_read (fst (main (Image.world_of Image.corrupt_11 Image.TiB))).
Proof.
  apply (no_read_after_bad_ephemeral
           (Image.world_of Image.corrupt_11 Image.TiB) _
           (Image.superblock 12 4 1 2 2 20 [1026; 1028])
           [Image.ephemeral true 12; Image.ephemeral false 12]
           (Image.ephemeral false 12)).
  - reflexivity.
  - reflexivity.
  - vm_compute. reflexivity.
  - simpl. auto.
  - reflexivity.
Defined.

(** ** Counting and fetching the ephemeral objects *)

Section FetchFacts.
Context {block : Type} {L : Layout block}.
Implicit Types (w : world block) (xp xp_obj : list block).

Lemma sum_cpm_count_nonneg xp : 0 <= sum_cpm_count xp.
Proof.
  induction xp as [| b xp IH]; simpl; [lia |].
  pose proof (cpm_count_u32 b). destruct (is_checkpoint_map_phys b); lia.
Qed.

Lemma u32_add_l a b : u32 (u32 a + b) = u32 (a + b).
Proof. unfold u32. apply Zplus_mod_idemp_l. Qed.

(** The counter of the mappings is the sum of the entry counts reduced
    modulo [2^32]. *)
Lemma count_mappings_next xp n :
  0 <= n < 2 ^ 32 ->
  snd (count_mappings xp n) = Next (u32 (n + sum_cpm_count xp)).
Proof.
  revert n. induction xp as [| b xp IH]; intros n Hn; simpl.
  - now rewrite Z.add_0_r, u32_small.
  - destruct (is_checkpoint_map_phys b).
    + unfold bind; simpl. rewrite IH by apply u32_range.
      now rewrite u32_add_l, Z.add_assoc.
    + now rewrite IH.
Qed.

Lemma skipn_nth_error {A} (l : list A) k x :
  nth_error l k = Some x -> skipn k l = x :: skipn (S k) l.
Proof.
  revert l. induction k as [| k IH]; intros [| y l]; simpl; try discriminate.
  - now intros [= ->].
  - intros H. now rewrite (IH l H).
Qed.

Lemma read_mappings_next w cap xp_map n j acc t xp_obj :
  0 <= j ->
  read_mappings w cap xp_map n j acc = (t, Next xp_obj) ->
  exists objs,
    xp_obj = acc ++ objs
    /\ length objs = n
    /\ reads t = fetches (firstn n (skipn (Z.to_nat j) (cpm_map xp_map)))
    /\ length (firstn n (skipn (Z.to_nat j) (cpm_map xp_map))) = n
    /\ Forall2 (fun paddr o => read_blocks w paddr 1 = [o])
               (firstn n (skipn (Z.to_nat j) (cpm_map xp_map))) objs
    /\ (n = O \/ Z.of_nat (length acc) + Z.of_nat n <= cap).
Proof.
  revert j acc t. induction n as [| n IH]; intros j acc t Hj; simpl.
  - intros [= <- <-]. exists []. rewrite app_nil_r. repeat split; auto.
  - destruct (nth_error (cpm_map xp_map) (Z.to_nat j)) as [paddr |] eqn:En;
      [| discriminate].
    destruct (Z.of_nat (length acc) <? cap) eqn:Ecap; [| discriminate].
    apply Z.ltb_lt in Ecap.
    unfold read, bind at 1. simpl.
    destruct (read_blocks w paddr 1) as [| o [| o' bs]] eqn:Er; try discriminate.
    destruct (read_mappings w cap xp_map n (j + 1) (acc ++ [o])) as [t2 s2] eqn:Erec.
    simpl. intros [= <- ->].
    destruct (IH (j + 1) (acc ++ [o]) t2 ltac:(lia) Erec)
      as (objs & -> & Hlen & Hreads & Hmap & Hall & Hcap).
    replace (Z.to_nat (j + 1)) with (S (Z.to_nat j)) in * by lia.
    rewrite (skipn_nth_error _ _ _ En). simpl firstn.
    exists (o :: objs). rewrite <- app_assoc. simpl.
    repeat split; auto.
    + now rewrite Hreads.
    + right. rewrite length_app in Hcap. simpl in Hcap. destruct Hcap; lia.
Qed.

Lemma read_xp_obj_next w cap xp acc t xp_obj :
  read_xp_obj w cap xp acc = (t, Next xp_obj) ->
  Z.of_nat (length acc) <= cap ->
  exists objs,
    xp_obj = acc ++ objs
    /\ Z.of_nat (length objs) = sum_cpm_count xp
    /\ reads t = fetches (mappings_of xp)
    /\ Forall2 (fun paddr o => read_blocks w paddr 1 = [o]) (mappings_of xp) objs
    /\ Z.of_nat (length acc) + sum_cpm_count xp <= cap.
Proof.
  revert acc t. induction xp as [| b xp IH]; intros acc t; simpl.
  - intros [= <- <-] Hcap. exists []. rewrite app_nil_r.
    repeat split; auto. simpl. lia.
  - destruct (is_checkpoint_map_phys b).
    + intros H Hcap. apply bind_inv_next in H as (t1 & acc' & t2 & H1 & H2 & ->).
      apply read_mappings_next in H1 as (objs1 & -> & Hlen1 & Hr1 & Hm1 & Hall1 & Hcap1);
        [| lia].
      simpl skipn in *.
      pose proof (cpm_count_u32 b) as Hc.
      apply IH in H2 as (objs2 & -> & Hlen2 & Hr2 & Hall2 & Hcap2);
        [| rewrite length_app; destruct Hcap1 as [E | E]; lia].
      exists (objs1 ++ objs2). rewrite app_assoc. repeat split.
      * rewrite length_app. lia.
      * rewrite reads_app, Hr1, Hr2. unfold fetches. now rewrite map_app.
      * now apply Forall2_app.
      * rewrite length_app in Hcap2. lia.
    + intros H Hcap. apply IH in H as (objs & -> & Hlen & Hr & Hall & Hcap'); auto.
      exists objs. repeat split; auto.
Qed.

(** C8, as amended.  The mapping count the program collects is the sum
    of the entry counts of the checkpoint maps of the checkpoint, in
    block order, reduced modulo [2^32].  Whenever the loading loop runs
    to its end, the count is that sum itself, and the loop has made
    exactly that many single-block reads, one per mapping in collection
    order, each delivering the object stored at the same position. *)
Theorem mapping_count_and_fetches w xp :
  snd (count_mappings xp 0) = Next (u32 (sum_cpm_count xp))
  /\ forall t xp_obj,
       read_xp_obj w (u32 (sum_cpm_count xp)) xp [] = (t, Next xp_obj) ->
       u32 (sum_cpm_count xp) = sum_cpm_count xp
       /\ reads t = fetches (mappings_of xp)
       /\ Z.of_nat (length (reads t)) = sum_cpm_count xp
       /\ Z.of_nat (length xp_obj) = sum_cpm_count xp
       /\ Forall2 (fun paddr o => read_blocks w paddr 1 = [o])
                  (mappings_of xp) xp_obj.
Proof.
  split.
  - rewrite count_mappings_next by lia. reflexivity.
  - intros t xp_obj H.
    pose proof (sum_cpm_count_nonneg xp) as Hs.
    pose proof (u32_le _ Hs) as Hle.
    apply read_xp_obj_next in H as (objs & -> & Hlen & Hr & Hall & Hcap);
      [| simpl; apply u32_range].
    simpl in *. repeat split; auto.
    + lia.
    + rewrite Hr. unfold fetches. rewrite length_map.
      apply Forall2_length in Hall. lia.
Qed.

End FetchFacts.

(** The checkpoint of transaction 12 of the healthy container: two
    mappings, two reads. *)
Lemma mapping_count_and_fetches_witness :
  snd (count_mappings (skipn 2 Image.healthy_area) 0) = Next 2
  /\ reads (fst (read_xp_obj (Image.world_of Image.healthy Image.TiB) 2
                             (skipn 2 Image.healthy_area) []))
     = [(Buf_xp_obj, 10, 1); (Buf_xp_obj, 11, 1)].
Proof.
  destruct (mapping_count_and_fetches (Image.world_of Image.healthy Image.TiB)
              (skipn 2 Image.healthy_area)) as [Hcount Hload].
  split; [exact Hcount |].
  destruct (Hload _ _ eq_refl) as (_ & Hreads & _).
  exact Hreads.
Defined.

(** C8, as stated, fails on both counts.  Two checkpoint maps that record
    [2^31] mappings each make the 32-bit counter wrap to zero; and when
    the second of three mappings cannot be read, the loop stops after two
    reads. *)
Lemma mapping_count_as_specified_fails :
  ~ mapping_count_as_specified (Image.world_of [] Image.TiB) Image.xp_overflow
  /\ ~ mapping_count_as_specified (Image.world_of Image.unreadable_11 Image.TiB)
                                  Image.xp_three.
Proof.
  split; intros H.
  - destruct (H _ 0 eq_refl) as [Hsum _]. vm_compute in Hsum. discriminate.
  - destruct (H _ 3 eq_refl) as [_ Hreads]. vm_compute in Hreads. discriminate.
Qed.

(** ** The indirect descriptor area *)

Section IndirectFacts.
Context {block : Type} {L : Layout block}.
Implicit Types (w : world block) (nxsb : block).

Lemma shiftr_31_testbit v :
  0 <= v < 2 ^ 32 -> (Z.shiftr v 31 =? 0) = negb (Z.testbit v 31).
Proof.
  intros Hv. rewrite Z.shiftr_div_pow2, Z.testbit_eqb by lia.
  assert (Hq : 0 <= v / 2 ^ 31 < 2).
  { split; [apply Z.div_pos; lia | apply Z.div_lt_upper_bound; lia]. }
  assert (Hcase : v / 2 ^ 31 = 0 \/ v / 2 ^ 31 = 1) by lia.
  destruct Hcase as [-> | ->]; reflexivity.
Qed.

Lemma land_lnot_bit_31 v :
  0 <= v < 2 ^ 32 -> Z.land v (Z.lnot (Z.shiftl 1 31)) = v mod 2 ^ 31.
Proof.
  intros Hv. apply Z.bits_inj'. intros n Hn.
  rewrite Z.land_spec, Z.lnot_spec, Z.shiftl_1_l, Z.pow2_bits_eqb by lia.
  rewrite Z.testbit_mod_pow2 by lia.
  destruct (Z.ltb_spec n 31) as [Hlt | Hge].
  - replace (31 =? n) with false by (symmetry; apply Z.eqb_neq; lia).
    simpl. apply andb_true_r.
  - destruct (Z.eqb_spec 31 n) as [<- | Hne]; cbn [negb andb].
    + apply andb_false_r.
    + rewrite andb_true_r. rewrite <- (Z.mod_small v (2 ^ 32)) by lia.
      apply Z.mod_pow2_bits_high. lia.
Qed.

(** Line 86 clears bit 31 of the field. *)
Lemma xp_desc_blocks_of_mod nxsb :
  xp_desc_blocks_of nxsb = nx_xp_desc_blocks nxsb mod 2 ^ 31.
Proof. apply land_lnot_bit_31, nx_xp_desc_blocks_u32. Qed.

(** Line 95 tests bit 31 of the field. *)
Lemma xp_desc_is_indirect_testbit nxsb :
  xp_desc_is_indirect nxsb = Z.testbit (nx_xp_desc_blocks nxsb) 31.
Proof.
  unfold xp_desc_is_indirect.
  rewrite shiftr_31_testbit by apply nx_xp_desc_blocks_u32.
  apply negb_involutive.
Qed.

Lemma xp_desc_blocks_of_direct nxsb :
  Z.testbit (nx_xp_desc_blocks nxsb) 31 = false ->
  xp_desc_blocks_of nxsb = nx_xp_desc_blocks nxsb.
Proof.
  intros Hbit. rewrite xp_desc_blocks_of_mod.
  pose proof (nx_xp_desc_blocks_u32 nxsb) as Hv.
  apply Z.mod_small. split; [lia |].
  rewrite Z.testbit_eqb in Hbit by lia. apply Z.eqb_neq in Hbit.
  assert (Hq : 0 <= nx_xp_desc_blocks nxsb / 2 ^ 31 < 2).
  { split; [apply Z.div_pos; lia | apply Z.div_lt_upper_bound; lia]. }
  assert (Hz : nx_xp_desc_blocks nxsb / 2 ^ 31 = 0).
  { destruct (Z.eq_dec (nx_xp_desc_blocks nxsb / 2 ^ 31) 0) as [E | E]; [exact E |].
    exfalso. apply Hbit. replace (nx_xp_desc_blocks nxsb / 2 ^ 31) with 1 by lia.
    reflexivity. }
  apply Z.div_small_iff in Hz; lia.
Qed.

Lemma read_block0_next w t nxsb :
  read_block0 w = (t, Next nxsb) -> reads t = [(Buf_nxsb, 0, 1)].
Proof.
  unfold read_block0, alloc, read.
  destruct (malloc_ok w Buf_nxsb nx_block_size); [| discriminate].
  unfold bind at 1 2. simpl.
  destruct (read_blocks w 0 1) as [| b [| b' bs]]; try discriminate.
  destruct (is_cksum_valid b), (is_nx_superblock b), (nx_magic b =? NX_MAGIC);
    simpl; intros [= <- <-]; reflexivity.
Qed.

Lemma bind_prefix {A B} (m : run block A) (f : A -> run block B) :
  exists t', fst (bind m f) = fst m ++ t'.
Proof.
  destruct m as [t [a | o]]; unfold bind; simpl.
  - now exists (fst (f a)).
  - exists []. now rewrite app_nil_r.
Qed.

Lemma locate_xp_desc_indirect w nxsb :
  Z.testbit (nx_xp_desc_blocks nxsb) 31 = true ->
  locate_xp_desc w nxsb
  = (Out (Desc_length (xp_desc_blocks_of nxsb))
       :: (if malloc_ok w Buf_xp_desc (xp_desc_blocks_of nxsb * nx_block_size)
           then [Out (Desc_not_contiguous (nx_xp_desc_base nxsb));
                 Out End_indirect_not_implemented]
           else [Out (Abort_alloc_xp_desc (xp_desc_blocks_of nxsb))]),
     Stop (Returned
             (if malloc_ok w Buf_xp_desc (xp_desc_blocks_of nxsb * nx_block_size)
              then 0 else -1))).
Proof.
  intros Hbit. unfold locate_xp_desc, alloc.
  rewrite xp_desc_is_indirect_testbit, Hbit.
  destruct (malloc_ok w Buf_xp_desc (xp_desc_blocks_of nxsb * nx_block_size));
    reflexivity.
Qed.

Lemma locate_xp_desc_direct w nxsb :
  malloc_ok w Buf_xp_desc (xp_desc_blocks_of nxsb * nx_block_size) = true ->
  Z.testbit (nx_xp_desc_blocks nxsb) 31 = false ->
  reads (fst (locate_xp_desc w nxsb))
  = [(Buf_xp_desc, nx_xp_desc_base nxsb, xp_desc_blocks_of nxsb)].
Proof.
  intros Hm Hbit. unfold locate_xp_desc, alloc, read.
  rewrite Hm, xp_desc_is_indirect_testbit, Hbit.
  unfold bind at 1 2 3 4 5. simpl.
  destruct (Z.of_nat (length (read_blocks w (nx_xp_desc_base nxsb) (xp_desc_blocks_of nxsb)))
            =? xp_desc_blocks_of nxsb); reflexivity.
Qed.

(** C7, as amended.  The block count of the descriptor area is the field
    [nx_xp_desc_blocks] of block 0 with bit 31 masked off, and the buffer
    for that many blocks is allocated before the bit is tested.  With the
    bit set the run reads no block but block 0 and returns: with status 0,
    after it has reported the area as not contiguous and the case as not
    implemented, when the buffer could be allocated, and with status -1,
    after it has reported the failed allocation, when it could not.  With
    the bit clear the masked count is the field itself, and once the
    buffer is allocated that count is the number of blocks read from the
    base address of the area. *)
Theorem indirect_layout_stops w t nxsb :
  read_block0 w = (t, Next nxsb) ->
  xp_desc_blocks_of nxsb = nx_xp_desc_blocks nxsb mod 2 ^ 31
  /\ if Z.testbit (nx_xp_desc_blocks nxsb) 31 then
       reads (fst (bootstrap w)) = [(Buf_nxsb, 0, 1)]
       /\ bootstrap w
          = (t ++ Out (Desc_length (xp_desc_blocks_of nxsb))
               :: (if malloc_ok w Buf_xp_desc
                        (xp_desc_blocks_of nxsb * nx_block_size)
                   then [Out (Desc_not_contiguous (nx_xp_desc_base nxsb));
                         Out End_indirect_not_implemented]
                   else [Out (Abort_alloc_xp_desc (xp_desc_blocks_of nxsb))]),
             Stop (Returned
                     (if malloc_ok w Buf_xp_desc
                           (xp_desc_blocks_of nxsb * nx_block_size)
                      then 0 else -1)))
     else
       xp_desc_blocks_of nxsb = nx_xp_desc_blocks nxsb
       /\ (malloc_ok w Buf_xp_desc (xp_desc_blocks_of nxsb * nx_block_size) = true ->
           exists rest,
             reads (fst (bootstrap w))
             = (Buf_nxsb, 0, 1)
                 :: (Buf_xp_desc, nx_xp_desc_base nxsb, xp_desc_blocks_of nxsb)
                 :: rest).
Proof.
  intros H0. split; [apply xp_desc_blocks_of_mod |].
  pose proof (read_block0_next w t nxsb H0) as Hr0.
  destruct (Z.testbit (nx_xp_desc_blocks nxsb) 31) eqn:Hbit.
  - assert (E : bootstrap w
                = (t ++ Out (Desc_length (xp_desc_blocks_of nxsb))
                     :: (if malloc_ok w Buf_xp_desc
                              (xp_desc_blocks_of nxsb * nx_block_size)
                         then [Out (Desc_not_contiguous (nx_xp_desc_base nxsb));
                               Out End_indirect_not_implemented]
                         else [Out (Abort_alloc_xp_desc (xp_desc_blocks_of nxsb))]),
                   Stop (Returned
                           (if malloc_ok w Buf_xp_desc
                                 (xp_desc_blocks_of nxsb * nx_block_size)
                            then 0 else -1)))).
    { unfold bootstrap, checkpoint_phase, materialize.
      rewrite (bind_next _ _ _ _ H0).
      rewrite (bind_stop _ _ _ _ (locate_xp_desc_indirect w nxsb Hbit)).
      reflexivity. }
    split; [| exact E].
    rewrite E. simpl fst. rewrite reads_app, Hr0.
    destruct (malloc_ok w Buf_xp_desc (xp_desc_blocks_of nxsb * nx_block_size));
      reflexivity.
  - split; [now apply xp_desc_blocks_of_direct |]. intros Hm.
    unfold bootstrap, checkpoint_phase.
    destruct (bind_prefix (bind (materialize w) (fun p =>
                bind (describe_xp (snd p)) (fun _ =>
                bind (load_xp_obj w (snd p)) (fun xp_obj => ret (fst p, xp_obj)))))
                (fun p => omap_phase w (fst p) (snd p))) as [t3 ->].
    destruct (bind_prefix (materialize w) (fun p =>
                bind (describe_xp (snd p)) (fun _ =>
                bind (load_xp_obj w (snd p)) (fun xp_obj => ret (fst p, xp_obj)))))
      as [t2 ->].
    unfold materialize. rewrite (bind_next _ _ _ _ H0). simpl fst.
    destruct (bind_prefix (locate_xp_desc w nxsb) (fun xp_desc =>
                bind (latest_nx xp_desc) (fun sel =>
                bind (load_xp w xp_desc (xp_desc_blocks_of nxsb) (snd sel))
                     (fun xp => ret (snd sel, xp))))) as [t1 ->].
    rewrite !reads_app, Hr0, (locate_xp_desc_direct w nxsb Hm Hbit).
    simpl. eexists. reflexivity.
Qed.

End IndirectFacts.

(** Block 0 announces an indirect descriptor area of four blocks. *)
Lemma indirect_layout_stops_witness :
  reads (fst (bootstrap (Image.world_of Image.indirect Image.TiB)))
  = [(Buf_nxsb, 0, 1)]
  /\ snd (bootstrap (Image.world_of Image.indirect Image.TiB)) = Stop (Returned 0).
Proof.
  destruct (indirect_layout_stops (Image.world_of Image.indirect Image.TiB)
              (fst (read_block0 (Image.world_of Image.indirect Image.TiB)))
              (Image.superblock 12 0x80000004 1 0 2 20 []))
    as [_ H]; [vm_compute; reflexivity |].
  change (Z.testbit
            (nx_xp_desc_blocks (Image.superblock 12 0x80000004 1 0 2 20 [])) 31)
    with true in H.
  destruct H as [Hreads E]. split; [exact Hreads | now rewrite E].
Defined.

(** C7, as stated, fails: with every bit of the field set the program asks
    for a buffer of [2^31 - 1] blocks before it tests the flag, and where a
    request of that size is refused the run aborts with status -1 and does
    not report the layout. *)
Lemma indirect_as_specified_fails :
  ~ indirect_as_specified (Image.world_of Image.indirect_huge Image.TiB)
  /\ bootstrap (Image.world_of Image.indirect_huge Image.TiB)
     = ([Read Buf_nxsb 0 1; Out Block0_cksum_ok;
         Out (Info_nx_superblock (Image.superblock 12 0xffffffff 1 0 2 20 []));
         Out (Desc_length 0x7fffffff); Out (Abort_alloc_xp_desc 0x7fffffff)],
        Stop (Returned (-1))).
Proof.
  split; [| vm_compute; reflexivity].
  intros H.
  destruct (H (fst (read_block0 (Image.world_of Image.indirect_huge Image.TiB)))
              (Image.superblock 12 0xffffffff 1 0 2 20 []))
    as [Hs _]; [vm_compute; reflexivity | vm_compute; reflexivity |].
  vm_compute in Hs. discriminate.
Qed.

(** ** How a run ends *)

Section StatusFacts.
Context {block : Type} {L : Layout block}.
Implicit Types (w : world block) (xp xp_obj xp_desc : list block).

Lemma last_message_app (t1 t2 : list (event block)) acc :
  last_message (t1 ++ t2) acc = last_message t2 (last_message t1 acc).
Proof.
  revert acc. induction t1 as [| [buf addr count | m] t1 IH]; intros acc; simpl; auto.
Qed.

Lemma last_message_Some (t : list (event block)) m acc :
  last_message t None = Some m -> last_message t acc = Some m.
Proof.
  revert acc. induction t as [| [buf addr count | m'] t IH]; intros acc; simpl.
  - discriminate.
  - apply IH.
  - intros H. clear IH. revert H. generalize (Some m'). clear acc.
    induction t as [| [buf addr count | m''] t IH]; intros acc H; simpl in *; auto.
Qed.

Lemma matches_bind {A B} (m : run block A) (f : A -> run block B) :
  status_matches_kind m -> (forall a, status_matches_kind (f a)) ->
  status_matches_kind (bind m f).
Proof.
  intros Hm Hf c Hc. destruct m as [t [a | o]]; unfold bind in *; simpl in *.
  - destruct (Hf a c Hc) as (k & Hk & ->). exists k. split; [| reflexivity].
    unfold kind_of_run in *. simpl.
    destruct (last_message (fst (f a)) None) as [m |] eqn:El; [| discriminate].
    rewrite last_message_app. now rewrite (last_message_Some _ _ _ El).
  - injection Hc as ->. destruct (Hm c eq_refl) as (k & Hk & ->).
    exists k. split; [exact Hk | reflexivity].
Qed.

Lemma matches_closing {B} (msg : message block) c k :
  kind_of_message msg = Some k -> c = status_of_kind k ->
  status_matches_kind (bind (print msg) (fun _ => stop (A := B) (Returned c))).
Proof.
  intros Hk -> c' [= <-]. exists k. split; [| reflexivity].
  unfold kind_of_run. simpl. exact Hk.
Qed.

Lemma matches_no_return {A} (r : run block A) :
  (forall c, snd r <> Stop (Returned c)) -> status_matches_kind r.
Proof. intros H c Hc. now apply H in Hc. Qed.

Local Ltac status_step :=
  match goal with
  | |- status_matches_kind (bind (print _) (fun _ => stop (Returned _))) =>
      eapply matches_closing; reflexivity
  | |- status_matches_kind (bind _ _) => apply matches_bind; [| intros ?]
  | |- status_matches_kind (if ?c then _ else _) => destruct c
  | |- status_matches_kind (match ?x with _ => _ end) => destruct x
  | |- status_matches_kind (let _ := _ in _) => cbv zeta
  | |- status_matches_kind (alloc _ _ _ _) => unfold alloc
  | |- status_matches_kind (index _ _) => unfold index
  | |- status_matches_kind _ =>
      apply matches_no_return; intros ?;
      unfold read, index, print, emit, ret, stop, bind; simpl; discriminate
  end.

Lemma read_block0_status w : status_matches_kind (read_block0 w).
Proof. unfold read_block0. repeat status_step. Qed.

Lemma locate_xp_desc_status w nxsb : status_matches_kind (locate_xp_desc w nxsb).
Proof. unfold locate_xp_desc. repeat status_step. Qed.

Lemma scan_xp_desc_status xp_desc rest i i_latest_nx :
  status_matches_kind (scan_xp_desc xp_desc rest i i_latest_nx).
Proof.
  revert i i_latest_nx.
  induction rest as [| b rest IH]; intros i i_latest_nx; simpl;
    repeat first [apply IH | status_step].
Qed.

Lemma latest_nx_status xp_desc : status_matches_kind (latest_nx xp_desc).
Proof.
  unfold latest_nx. apply matches_bind; [apply scan_xp_desc_status | intros ?].
  repeat status_step.
Qed.

Lemma load_xp_status w xp_desc n nxsb :
  status_matches_kind (load_xp w xp_desc n nxsb).
Proof. unfold load_xp. repeat status_step. Qed.

Lemma describe_xp_status xp : status_matches_kind (describe_xp xp).
Proof. induction xp as [| b xp IH]; simpl; repeat first [apply IH | status_step]. Qed.

Lemma count_mappings_status xp n : status_matches_kind (count_mappings xp n).
Proof.
  revert n. induction xp as [| b xp IH]; intros n; simpl;
    repeat first [apply IH | status_step].
Qed.

Lemma read_mappings_status w cap xp_map n j xp_obj :
  status_matches_kind (read_mappings w cap xp_map n j xp_obj).
Proof.
  revert j xp_obj. induction n as [| n IH]; intros j xp_obj; simpl;
    repeat first [apply IH | status_step].
Qed.

Lemma read_xp_obj_status w cap xp xp_obj :
  status_matches_kind (read_xp_obj w cap xp xp_obj).
Proof.
  revert xp_obj. induction xp as [| b xp IH]; intros xp_obj; simpl;
    repeat first [apply IH | apply read_mappings_status | status_step].
Qed.

Lemma load_xp_obj_status w xp : status_matches_kind (load_xp_obj w xp).
Proof.
  unfold load_xp_obj.
  repeat first [apply count_mappings_status | apply read_xp_obj_status | status_step].
Qed.

Lemma validate_xp_obj_status xp_obj : status_matches_kind (validate_xp_obj xp_obj).
Proof.
  induction xp_obj as [| o xp_obj IH]; simpl; repeat first [apply IH | status_step].
Qed.

Lemma describe_xp_obj_status xp_obj : status_matches_kind (describe_xp_obj xp_obj).
Proof.
  induction xp_obj as [| o xp_obj IH]; simpl; repeat first [apply IH | status_step].
Qed.

Lemma print_file_systems_status nxsb n i :
  status_matches_kind (print_file_systems nxsb n i).
Proof.
  revert i. induction n as [| n IH]; intros i; simpl;
    repeat first [apply IH | status_step].
Qed.

Lemma checkpoint_phase_status w : status_matches_kind (checkpoint_phase w).
Proof.
  unfold checkpoint_phase, materialize.
  repeat first [ apply read_block0_status | apply locate_xp_desc_status
               | apply latest_nx_status | apply load_xp_status
               | apply describe_xp_status | apply load_xp_obj_status
               | status_step ].
Qed.

Lemma omap_phase_status w nxsb xp_obj :
  status_matches_kind (omap_phase w nxsb xp_obj).
Proof.
  unfold omap_phase.
  repeat first [ apply validate_xp_obj_status | apply describe_xp_obj_status
               | apply print_file_systems_status | status_step ].
Qed.

(** A run never falls off the end of a stage that closes every branch. *)
Lemma bind_stops {A B} (m : run block A) (f : A -> run block B) :
  (forall a, exists o, snd (f a) = Stop o) -> exists o, snd (bind m f) = Stop o.
Proof.
  intros Hf. destruct m as [t [a | o]]; unfold bind; simpl; eauto.
Qed.

Lemma omap_phase_stops w nxsb xp_obj :
  exists o, snd (omap_phase w nxsb xp_obj) = Stop o.
Proof.
  unfold omap_phase.
  repeat (apply bind_stops; intros ?).
  match goal with |- context [match ?x with _ => _ end] => destruct x as [| b [| b' bs]] end;
    try (repeat (apply bind_stops; intros ?); simpl; eauto).
  repeat (apply bind_stops; intros ?).
  destruct (negb (is_cksum_valid b));
    [repeat (apply bind_stops; intros ?); simpl; eauto |].
  repeat (apply bind_stops; intros ?).
  destruct (negb (Z.land (om_tree_type b) OBJ_STORAGETYPE_MASK =? OBJ_PHYSICAL));
    [repeat (apply bind_stops; intros ?); simpl; eauto |].
  repeat (apply bind_stops; intros ?).
  match goal with |- context [match ?x with _ => _ end] => destruct x as [| r [| r' rs]] end;
    repeat (apply bind_stops; intros ?); simpl; eauto.
Qed.

(** C9, as amended.  Every run of the program on an opened container
    ends, and when it ends by returning, the status goes with the kind
    of the closing message: -1 after an [ABORT] (a failed read, or a
    failed allocation) and 0 after an [END] (the unsupported layouts, a
    malformed ephemeral object or object map, and completion).  The
    status therefore tells only an abort from an end; the kinds that
    share a status differ in the closing message alone, and no outcome
    stands for the absence of a valid superblock. *)
Theorem status_tells_abort_from_end w :
  (exists o, snd (bootstrap w) = Stop o)
  /\ forall c,
       snd (bootstrap w) = Stop (Returned c) ->
       exists k, kind_of_run (bootstrap w) = Some k /\ c = status_of_kind k.
Proof.
  split.
  - unfold bootstrap. apply bind_stops. intros p. apply omap_phase_stops.
  - change (status_matches_kind (bootstrap w)). unfold bootstrap.
    apply matches_bind; [apply checkpoint_phase_status |].
    intros p. apply omap_phase_status.
Qed.

End StatusFacts.

(** The healthy container: the run completes with status 0. *)
Lemma status_tells_abort_from_end_witness :
  exists k,
    kind_of_run (bootstrap (Image.world_of Image.healthy Image.TiB)) = Some k
    /\ 0 = status_of_kind k.
Proof.
  destruct (status_tells_abort_from_end (Image.world_of Image.healthy Image.TiB))
    as [_ H].
  apply (H 0). vm_compute. reflexivity.
Defined.

(** C9, as stated, fails: the run that completes on the healthy container
    and the run that stops at an indirect descriptor area are of different
    kinds and return the same status 0. *)
Lemma kinds_distinguished_by_status_fails :
  ~ kinds_distinguished_by_status (Image.world_of Image.healthy Image.TiB)
                                  (Image.world_of Image.indirect Image.TiB)
  /\ kind_of_run (bootstrap (Image.world_of Image.healthy Image.TiB)) = Some Completed
  /\ kind_of_run (bootstrap (Image.world_of Image.indirect Image.TiB))
     = Some UnsupportedLayout.
Proof.
  split; [| split; vm_compute; reflexivity].
  intros H. apply (H 0 0).
  - vm_compute. reflexivity.
  - vm_compute. reflexivity.
  - vm_compute. discriminate.
  - reflexivity.
Qed.

(** ** The scan for the latest superblock *)

Section ScanFacts.
Context {block : Type} {L : Layout block}.
Implicit Types (xp_desc pre rest : list block) (b : block).

Lemma candidate_false_cksum b : is_cksum_valid b = false -> candidate b = false.
Proof. unfold candidate. now intros ->. Qed.

Lemma candidate_false_type b : is_nx_superblock b = false -> candidate b = false.
Proof. unfold candidate. intros ->. now rewrite andb_false_r. Qed.

Lemma candidate_false_magic b :
  (nx_magic b =? NX_MAGIC) = false -> candidate b = false.
Proof. unfold candidate. intros ->. now rewrite andb_false_r. Qed.

(** What the loop keeps true of [i_latest_nx]: it is 0 or the index of a
    candidate, and no block seen so far that is a candidate, nor block 0,
    has a greater transaction identifier than the block it points at. *)
Lemma scan_xp_desc_next xp_desc b0 rest :
  nth_error xp_desc 0 = Some b0 ->
  forall pre i_latest_nx latest,
    xp_desc = pre ++ rest ->
    0 <= i_latest_nx ->
    nth_error xp_desc (Z.to_nat i_latest_nx) = Some latest ->
    i_latest_nx = 0 \/ candidate latest = true ->
    o_xid b0 <= o_xid latest ->
    (forall c, In c pre -> candidate c = true -> o_xid c <= o_xid latest) ->
    exists k bk,
      snd (scan_xp_desc xp_desc rest (Z.of_nat (length pre)) i_latest_nx) = Next k
      /\ 0 <= k
      /\ nth_error xp_desc (Z.to_nat k) = Some bk
      /\ (k = 0 \/ candidate bk = true)
      /\ o_xid b0 <= o_xid bk
      /\ (forall c, In c xp_desc -> candidate c = true -> o_xid c <= o_xid bk).
Proof.
  intros H0. induction rest as [| b rest IH];
    intros pre il latest Hsplit Hil Hnth Hcand Hb0 Hmax.
  - simpl. exists il, latest. rewrite app_nil_r in Hsplit. subst pre.
    repeat split; auto.
  - assert (Hsplit' : xp_desc = (pre ++ [b]) ++ rest)
      by (now rewrite <- app_assoc).
    assert (Hi : Z.of_nat (length pre) + 1 = Z.of_nat (length (pre ++ [b])))
      by (rewrite length_app; simpl; lia).
    assert (Hskip : candidate b = false ->
              forall c, In c (pre ++ [b]) -> candidate c = true ->
                        o_xid c <= o_xid latest).
    { intros Hb c Hin Hc. apply in_app_or in Hin as [Hin | [<- | []]]; auto.
      congruence. }
    simpl. destruct (is_cksum_valid b) eqn:Eck; simpl.
    + destruct (is_nx_superblock b) eqn:Enx.
      * destruct (nx_magic b =? NX_MAGIC) eqn:Emg; simpl.
        -- unfold index. rewrite Hnth. unfold bind at 1. simpl.
           destruct (o_xid b >? o_xid latest) eqn:Egt; rewrite Hi.
           ++ apply Z.gtb_lt in Egt.
              apply (IH (pre ++ [b]) (Z.of_nat (length pre)) b); auto; try lia.
              ** rewrite Nat2Z.id, Hsplit, nth_error_app2 by lia.
                 now rewrite Nat.sub_diag.
              ** right. unfold candidate. now rewrite Eck, Enx, Emg.
              ** intros c Hin Hc. apply in_app_or in Hin as [Hin | [<- | []]].
                 --- specialize (Hmax c Hin Hc). lia.
                 --- lia.
           ++ assert (Hle : o_xid b <= o_xid latest).
              { destruct (Z.gtb_spec (o_xid b) (o_xid latest)); [discriminate | lia]. }
              apply (IH (pre ++ [b]) il latest); auto.
              intros c Hin Hc. apply in_app_or in Hin as [Hin | [<- | []]]; auto.
        -- rewrite Hi.
           apply (IH (pre ++ [b]) il latest); auto.
           apply Hskip. now apply candidate_false_magic.
      * destruct (is_checkpoint_map_phys b); simpl; rewrite Hi;
          apply (IH (pre ++ [b]) il latest); auto;
          apply Hskip; now apply candidate_false_type.
    + rewrite Hi.
      apply (IH (pre ++ [b]) il latest); auto.
      apply Hskip. now apply candidate_false_cksum.
Qed.

(** On a descriptor area that is not empty the scan always ends with a
    winner.  The winner is block 0 or a candidate, and no candidate has a
    greater transaction identifier; block 0 itself is never examined
    before it is taken as the first winner. *)
Lemma latest_nx_next xp_desc b0 :
  nth_error xp_desc 0 = Some b0 ->
  exists k bk,
    snd (latest_nx xp_desc) = Next (k, bk)
    /\ nth_error xp_desc (Z.to_nat k) = Some bk
    /\ (k = 0 \/ candidate bk = true)
    /\ o_xid b0 <= o_xid bk
    /\ (forall c, In c xp_desc -> candidate c = true -> o_xid c <= o_xid bk).
Proof.
  intros H0.
  destruct (scan_xp_desc_next xp_desc b0 xp_desc H0 [] 0 b0)
    as (k & bk & Hscan & Hk & Hnth & Hcand & Hb0 & Hmax);
    auto; try lia; try (intros c []).
  exists k, bk. repeat split; auto.
  unfold latest_nx. simpl in Hscan.
  destruct (scan_xp_desc xp_desc xp_desc 0 0) as [t s]. simpl in Hscan. subst s.
  unfold bind at 1. simpl. unfold index. rewrite Hnth. reflexivity.
Qed.

(** Where block 0 is itself a well-formed superblock the winner is one
    too. *)
Lemma latest_nx_candidate xp_desc b0 :
  nth_error xp_desc 0 = Some b0 -> candidate b0 = true ->
  exists k bk,
    snd (latest_nx xp_desc) = Next (k, bk)
    /\ nth_error xp_desc (Z.to_nat k) = Some bk
    /\ candidate bk = true
    /\ (forall c, In c xp_desc -> candidate c = true -> o_xid c <= o_xid bk).
Proof.
  intros H0 Hc0.
  destruct (latest_nx_next xp_desc b0 H0) as (k & bk & Hl & Hnth & Hcand & _ & Hmax).
  exists k, bk. repeat split; auto.
  destruct Hcand as [-> | Hcand]; [| exact Hcand].
  change (Z.to_nat 0) with 0%nat in Hnth. rewrite H0 in Hnth.
  now injection Hnth as <-.
Qed.

End ScanFacts.

(** Scenario B of the specification: superblocks of transactions 10 and 12
    at the indices 1 and 3; the scan selects index 3. *)
Example scan_scenario_b :
  snd (latest_nx Image.area_scenario_b)
  = Next (3, Image.superblock 12 4 1 2 2 20 [1026; 1028]).
Proof. vm_compute. reflexivity. Qed.

(** C2: the program at a failing input.  The first block of the area has
    the greatest transaction identifier and a bad checksum (in the second
    area: a wrong magic number); the scan warns that it skips the block and
    yet selects it, at index 0, although the block at index 1 is a
    well-formed superblock. *)
Theorem scan_selects_invalid_block :
  snd (latest_nx Image.area_corrupt_first)
  = Next (0, Image.with_cksum false (Image.superblock 100 2 1 0 1 20 []))
  /\ fst (latest_nx Image.area_corrupt_first)
     = [Out (Warn_cksum 0); Out (Latest_at 0);
        Out (Info_nx_superblock
               (Image.with_cksum false (Image.superblock 100 2 1 0 1 20 [])));
        Out (Checkpoint_span 0 1)]
  /\ snd (latest_nx Image.area_bad_magic_first)
     = Next (0, Image.with_magic 0 (Image.superblock 100 2 1 0 1 20 []))
  /\ candidate (Image.with_cksum false (Image.superblock 100 2 1 0 1 20 [])) = false
  /\ candidate (Image.with_magic 0 (Image.superblock 100 2 1 0 1 20 [])) = false
  /\ candidate (Image.superblock 5 2 1 1 1 20 []) = true.
Proof. vm_compute. repeat split; reflexivity. Qed.

(** C3: the program at a failing input.  The ring buffer holds the
    checkpoint of transaction 12 in its blocks 0 and 1 and that of
    transaction 11 in its blocks 2 and 3.  The superblock with the greatest
    transaction identifier is at index 1; the scan selects index 0, the
    checkpoint map of transaction 12, because no superblock has a
    transaction identifier greater than that of block 0. *)
Theorem scan_misses_latest_superblock :
  snd (latest_nx Image.area_latest_first)
  = Next (0, Image.checkpoint_map 12 2 [10; 11])
  /\ is_nx_superblock (Image.checkpoint_map 12 2 [10; 11]) = false
  /\ List.map candidate Image.area_latest_first = [false; true; false; true]
  /\ List.map o_xid Image.area_latest_first = [12; 12; 11; 11].
Proof. vm_compute. repeat split; reflexivity. Qed.

(** C4: the program at a failing input.  No block of the area is a
    well-formed superblock; the scan does not fail but declares block 0, a
    checkpoint map, the latest superblock, and the run goes on with it. *)
Theorem scan_without_superblock_selects_block_0 :
  existsb candidate Image.area_no_superblock = false
  /\ snd (latest_nx Image.area_no_superblock)
     = Next (0, Image.checkpoint_map 7 1 [10])
  /\ fst (latest_nx Image.area_no_superblock)
     = [Out (Warn_cksum 1); Out (Latest_at 0);
        Out (Info_nx_superblock (Image.checkpoint_map 7 1 [10]));
        Out (Checkpoint_span 0 0)].
Proof. vm_compute. repeat split; reflexivity. Qed.

(** * Further properties of the program *)

(** ** The winner of the scan *)

Section ScanOrder.
Context {block : Type} {L : Layout block}.
Implicit Types (xp_desc pre rest : list block) (b : block).

(** The loop invariant with the order of the blocks: besides dominating
    block 0 and the candidates seen, the block at [i_latest_nx] has a
    strictly greater transaction identifier than every candidate before
    it, and than block 0 unless it is block 0. *)
Lemma scan_xp_desc_winner xp_desc b0 rest :
  nth_error xp_desc 0 = Some b0 ->
  forall pre i_latest_nx latest,
    xp_desc = pre ++ rest ->
    0 <= i_latest_nx ->
    nth_error xp_desc (Z.to_nat i_latest_nx) = Some latest ->
    i_latest_nx = 0 \/ candidate latest = true ->
    o_xid b0 <= o_xid latest ->
    (i_latest_nx <> 0 -> o_xid b0 < o_xid latest) ->
    (forall c, In c pre -> candidate c = true -> o_xid c <= o_xid latest) ->
    (forall j c, (j < Z.to_nat i_latest_nx)%nat -> nth_error xp_desc j = Some c ->
                 candidate c = true -> o_xid c < o_xid latest) ->
    exists k bk,
      snd (scan_xp_desc xp_desc rest (Z.of_nat (length pre)) i_latest_nx) = Next k
      /\ 0 <= k
      /\ nth_error xp_desc (Z.to_nat k) = Some bk
      /\ (k = 0 \/ candidate bk = true)
      /\ o_xid b0 <= o_xid bk
      /\ (k <> 0 -> o_xid b0 < o_xid bk)
      /\ (forall c, In c xp_desc -> candidate c = true -> o_xid c <= o_xid bk)
      /\ (forall j c, (j < Z.to_nat k)%nat -> nth_error xp_desc j = Some c ->
                      candidate c = true -> o_xid c < o_xid bk).
Proof.
  intros H0. induction rest as [| b rest IH];
    intros pre il latest Hsplit Hil Hnth Hcand Hb0 Hb0' Hmax Hfirst.
  - simpl. exists il, latest. rewrite app_nil_r in Hsplit. subst pre.
    repeat split; auto.
  - assert (Hsplit' : xp_desc = (pre ++ [b]) ++ rest)
      by (now rewrite <- app_assoc).
    assert (Hi : Z.of_nat (length pre) + 1 = Z.of_nat (length (pre ++ [b])))
      by (rewrite length_app; simpl; lia).
    assert (Hskip : candidate b = false ->
              forall c, In c (pre ++ [b]) -> candidate c = true ->
                        o_xid c <= o_xid latest).
    { intros Hb c Hin Hc. apply in_app_or in Hin as [Hin | [<- | []]]; auto.
      congruence. }
    assert (Hkeep : candidate b = false ->
              exists k bk,
                snd (scan_xp_desc xp_desc rest (Z.of_nat (length (pre ++ [b]))) il) = Next k
                /\ 0 <= k
                /\ nth_error xp_desc (Z.to_nat k) = Some bk
                /\ (k = 0 \/ candidate bk = true)
                /\ o_xid b0 <= o_xid bk
                /\ (k <> 0 -> o_xid b0 < o_xid bk)
                /\ (forall c, In c xp_desc -> candidate c = true -> o_xid c <= o_xid bk)
                /\ (forall j c, (j < Z.to_nat k)%nat -> nth_error xp_desc j = Some c ->
                                candidate c = true -> o_xid c < o_xid bk)).
    { intros Hb. apply (IH (pre ++ [b]) il latest); auto. }
    simpl. destruct (is_cksum_valid b) eqn:Eck; simpl.
    + destruct (is_nx_superblock b) eqn:Enx.
      * destruct (nx_magic b =? NX_MAGIC) eqn:Emg; simpl.
        -- unfold index. rewrite Hnth. unfold bind at 1. simpl.
           destruct (o_xid b >? o_xid latest) eqn:Egt; rewrite Hi.
           ++ apply Z.gtb_lt in Egt.
              apply (IH (pre ++ [b]) (Z.of_nat (length pre)) b); auto; try lia.
              ** rewrite Nat2Z.id, Hsplit, nth_error_app2 by lia.
                 now rewrite Nat.sub_diag.
              ** right. unfold candidate. now rewrite Eck, Enx, Emg.
              ** intros c Hin Hc. apply in_app_or in Hin as [Hin | [<- | []]].
                 --- specialize (Hmax c Hin Hc). lia.
                 --- lia.
              ** intros j c Hj Hjc Hc. rewrite Nat2Z.id in Hj.
                 rewrite Hsplit, nth_error_app1 in Hjc by lia.
                 apply nth_error_In in Hjc. specialize (Hmax c Hjc Hc). lia.
           ++ assert (Hle : o_xid b <= o_xid latest).
              { destruct (Z.gtb_spec (o_xid b) (o_xid latest)); [discriminate | lia]. }
              apply (IH (pre ++ [b]) il latest); auto.
              intros c Hin Hc. apply in_app_or in Hin as [Hin | [<- | []]]; auto.
        -- rewrite Hi. apply Hkeep. now apply candidate_false_magic.
      * destruct (is_checkpoint_map_phys b); simpl; rewrite Hi;
          apply Hkeep; now apply candidate_false_type.
    + rewrite Hi. apply Hkeep. now apply candidate_false_cksum.
Qed.

(** X1.  On a descriptor area that is not empty the scan always ends with
    a winner inside the area.  The winner is block 0 or a candidate (a
    block with a valid checksum, the type of a container superblock and
    the right magic number); no candidate of the area and not block 0 has
    a greater transaction identifier; and a winner other than block 0 has
    a strictly greater transaction identifier than block 0 and than every
    candidate at a smaller index, so that among equals the first seen
    wins. *)
Theorem latest_nx_winner xp_desc b0 :
  nth_error xp_desc 0 = Some b0 ->
  exists k bk,
    snd (latest_nx xp_desc) = Next (k, bk)
    /\ 0 <= k < Z.of_nat (length xp_desc)
    /\ nth_error xp_desc (Z.to_nat k) = Some bk
    /\ (k = 0 \/ candidate bk = true)
    /\ o_xid b0 <= o_xid bk
    /\ (k <> 0 -> o_xid b0 < o_xid bk)
    /\ (forall c, In c xp_desc -> candidate c = true -> o_xid c <= o_xid bk)
    /\ (forall j c, (j < Z.to_nat k)%nat -> nth_error xp_desc j = Some c ->
                    candidate c = true -> o_xid c < o_xid bk).
Proof.
  intros H0.
  destruct (scan_xp_desc_winner xp_desc b0 xp_desc H0 [] 0 b0)
    as (k & bk & Hscan & Hk & Hnth & Hcand & Hb0 & Hb0' & Hmax & Hfirst);
    auto; try lia; try (intros c []); try (intros j c Hj; simpl in Hj; lia).
  exists k, bk. repeat split; auto.
  - unfold latest_nx. simpl in Hscan.
    destruct (scan_xp_desc xp_desc xp_desc 0 0) as [t s]. simpl in Hscan. subst s.
    unfold bind at 1. simpl. unfold index. rewrite Hnth. reflexivity.
  - assert (Hlt : (Z.to_nat k < length xp_desc)%nat)
      by (apply nth_error_Some; congruence).
    lia.
Qed.

(** X2.  Where block 0 of the descriptor area is itself a well-formed
    container superblock, the scan selects a well-formed container
    superblock of the greatest transaction identifier, and the first of
    them in the area when several share that identifier. *)
Theorem latest_nx_correct_from_valid_block_0 xp_desc b0 :
  nth_error xp_desc 0 = Some b0 -> candidate b0 = true ->
  exists k bk,
    snd (latest_nx xp_desc) = Next (k, bk)
    /\ nth_error xp_desc (Z.to_nat k) = Some bk
    /\ candidate bk = true
    /\ (forall c, In c xp_desc -> candidate c = true -> o_xid c <= o_xid bk)
    /\ (forall j c, (j < Z.to_nat k)%nat -> nth_error xp_desc j = Some c ->
                    candidate c = true -> o_xid c < o_xid bk).
Proof.
  intros H0 Hc0.
  destruct (scan_xp_desc_winner xp_desc b0 xp_desc H0 [] 0 b0)
    as (k & bk & Hscan & Hk & Hnth & Hcand & Hb0 & Hb0' & Hmax & Hfirst);
    auto; try lia; try (intros c []); try (intros j c Hj; simpl in Hj; lia).
  exists k, bk. repeat split; auto.
  - unfold latest_nx. simpl in Hscan.
    destruct (scan_xp_desc xp_desc xp_desc 0 0) as [t s]. simpl in Hscan. subst s.
    unfold bind at 1. simpl. unfold index. rewrite Hnth. reflexivity.
  - destruct Hcand as [-> | Hcand]; [| exact Hcand].
    change (Z.to_nat 0) with 0%nat in Hnth. rewrite H0 in Hnth.
    now injection Hnth as <-.
Qed.

End ScanOrder.

(** Scenario B: the winner is the superblock of transaction 12 at index 3. *)
Lemma latest_nx_winner_witness :
  exists k bk,
    snd (latest_nx Image.area_scenario_b) = Next (k, bk)
    /\ 0 <= k < 4
    /\ (k = 0 \/ candidate bk = true)
    /\ 10 <= o_xid bk.
Proof.
  destruct (latest_nx_winner Image.area_scenario_b (Image.checkpoint_map 10 1 [10]))
    as (k & bk & H1 & H2 & _ & H4 & H5 & _); [reflexivity |].
  exists k, bk. repeat split; try assumption; apply H2.
Defined.

(** The healthy area rotated so that a superblock comes first. *)
Lemma latest_nx_correct_from_valid_block_0_witness :
  exists k bk,
    snd (latest_nx [Image.superblock 11 4 1 3 2 20 [1026];
                    Image.checkpoint_map 12 2 [10; 11];
                    Image.superblock 12 4 1 1 2 20 [1026; 1028];
                    Image.checkpoint_map 11 1 [10]]) = Next (k, bk)
    /\ candidate bk = true.
Proof.
  destruct (latest_nx_correct_from_valid_block_0
              [Image.superblock 11 4 1 3 2 20 [1026];
               Image.checkpoint_map 12 2 [10; 11];
               Image.superblock 12 4 1 1 2 20 [1026; 1028];
               Image.checkpoint_map 11 1 [10]]
              (Image.superblock 11 4 1 3 2 20 [1026]))
    as (k & bk & H1 & _ & H3 & _); [reflexivity | reflexivity |].
  exists k, bk. split; assumption.
Defined.

(** ** Safety of the copy out of the ring buffer *)

Section RingSafety.
Context {A : Type}.
Implicit Types (l xp_desc xp : list A).

Lemma In_blocks_from l lo n x : In x (blocks_from l lo n) -> In x l.
Proof.
  unfold blocks_from. intros H.
  rewrite <- (firstn_skipn (Z.to_nat lo) l). apply in_or_app. right.
  rewrite <- (firstn_skipn (Z.to_nat n) (skipn (Z.to_nat lo) l)).
  apply in_or_app. now left.
Qed.

(** X3.  For 32-bit values of the start index and the length and an area
    of fewer than [2^31] blocks, the copy stays inside the descriptor area
    exactly when the start index is at most the block count and the part
    that wraps around is no longer than the area; for every other request,
    among them those whose sum wraps around [2^32], a [memcpy] reads
    outside the array. *)
Theorem copy_checkpoint_safe_iff xp_desc idx len :
  Z.of_nat (length xp_desc) < 2 ^ 31 ->
  0 <= idx < 2 ^ 32 -> 0 <= len < 2 ^ 32 ->
  copy_checkpoint xp_desc (Z.of_nat (length xp_desc)) idx len <> None
  <-> idx <= Z.of_nat (length xp_desc)
      /\ len - (Z.of_nat (length xp_desc) - idx) <= Z.of_nat (length xp_desc).
Proof.
  intros Hbc Hi Hl. split.
  - intros Hsome.
    destruct (Z_le_gt_dec idx (Z.of_nat (length xp_desc))) as [H1 | H1];
      [destruct (Z_le_gt_dec (len - (Z.of_nat (length xp_desc) - idx))
                             (Z.of_nat (length xp_desc))) as [H2 | H2] |].
    + split; assumption.
    + exfalso. apply Hsome. apply copy_checkpoint_out_of_bounds; auto.
    + exfalso. apply Hsome. apply copy_checkpoint_out_of_bounds; auto.
  - intros [H1 H2].
    destruct (Z_le_gt_dec (idx + len) (Z.of_nat (length xp_desc))) as [Hd | Hw].
    + rewrite copy_checkpoint_direct by lia. discriminate.
    + rewrite copy_checkpoint_wrap by lia. discriminate.
Qed.

Lemma copy_checkpoint_In xp_desc xp_desc_blocks idx len xp :
  copy_checkpoint xp_desc xp_desc_blocks idx len = Some xp ->
  forall x, In x xp -> In x xp_desc.
Proof.
  unfold copy_checkpoint, memcpy_blocks.
  destruct (u32 (idx + len) <=? xp_desc_blocks).
  - destruct ((0 <=? idx) && (0 <=? len) && (idx + len <=? Z.of_nat (length xp_desc)));
      [| discriminate].
    intros [= <-] x Hx. exact (In_blocks_from xp_desc idx len x Hx).
  - cbv zeta.
    destruct ((0 <=? idx) && (0 <=? u32 (xp_desc_blocks - idx))
              && (idx + u32 (xp_desc_blocks - idx) <=? Z.of_nat (length xp_desc)));
      [| discriminate].
    destruct ((0 <=? 0) && (0 <=? u32 (len - u32 (xp_desc_blocks - idx)))
              && (0 + u32 (len - u32 (xp_desc_blocks - idx))
                  <=? Z.of_nat (length xp_desc)));
      [| discriminate].
    destruct (u32 (xp_desc_blocks - idx) + u32 (len - u32 (xp_desc_blocks - idx))
              <=? len); [| discriminate].
    intros [= <-] x Hx. apply in_app_or in Hx as [Hx | Hx].
    + exact (In_blocks_from xp_desc idx _ x Hx).
    + exact (In_blocks_from xp_desc 0 _ x Hx).
Qed.

(** X4.  Whatever the request, a copy that succeeds fills [xp] with
    exactly [len] blocks, and each of them is a block of the descriptor
    area. *)
Theorem copy_checkpoint_sound xp_desc xp_desc_blocks idx len xp :
  0 <= len < 2 ^ 32 ->
  copy_checkpoint xp_desc xp_desc_blocks idx len = Some xp ->
  Z.of_nat (length xp) = len /\ (forall x, In x xp -> In x xp_desc).
Proof.
  intros Hl Hcopy. split.
  - eapply copy_checkpoint_length; eassumption.
  - eapply copy_checkpoint_In; eassumption.
Qed.

End RingSafety.

(** The request of scenario A is safe; one that wraps twice is not. *)
Lemma copy_checkpoint_safe_iff_witness :
  copy_checkpoint [100; 101; 102; 103] 4 2 3 <> None <-> 2 <= 4 /\ 3 - (4 - 2) <= 4.
Proof.
  apply (copy_checkpoint_safe_iff [100; 101; 102; 103] 2 3);
    [reflexivity | lia | lia].
Defined.

Lemma copy_checkpoint_sound_witness :
  Z.of_nat (length [102; 103; 100]) = 3
  /\ (forall x, In x [102; 103; 100] -> In x [100; 101; 102; 103]).
Proof.
  apply (copy_checkpoint_sound [100; 101; 102; 103] 4 2 3 [102; 103; 100]);
    [lia | reflexivity].
Defined.

(** ** The block count and the flag of the descriptor area *)

Section DescriptorField.
Context {block : Type} {L : Layout block}.
Implicit Types (w : world block) (nxsb : block).

(** X5.  The block count of line 86 and the flag of line 95 split the field
    [nx_xp_desc_blocks] without loss: the count is below [2^31], and the
    field is the count plus [2^31] when the flag is set and the count
    itself when it is not. *)
Theorem xp_desc_blocks_split nxsb :
  0 <= xp_desc_blocks_of nxsb < 2 ^ 31
  /\ nx_xp_desc_blocks nxsb
     = xp_desc_blocks_of nxsb + (if xp_desc_is_indirect nxsb then 2 ^ 31 else 0).
Proof.
  rewrite xp_desc_blocks_of_mod, xp_desc_is_indirect_testbit.
  pose proof (nx_xp_desc_blocks_u32 nxsb) as Hv.
  split; [apply Z.mod_pos_bound; lia |].
  rewrite Z.testbit_eqb by lia.
  pose proof (Z.div_mod (nx_xp_desc_blocks nxsb) (2 ^ 31) ltac:(lia)) as Hdm.
  assert (Hq : 0 <= nx_xp_desc_blocks nxsb / 2 ^ 31 < 2).
  { split; [apply Z.div_pos; lia | apply Z.div_lt_upper_bound; lia]. }
  assert (Hcase : nx_xp_desc_blocks nxsb / 2 ^ 31 = 0
                  \/ nx_xp_desc_blocks nxsb / 2 ^ 31 = 1) by lia.
  destruct Hcase as [E | E]; rewrite E in *; simpl; lia.
Qed.

Lemma locate_xp_desc_empty w nxsb :
  nx_xp_desc_blocks nxsb = 0 ->
  malloc_ok w Buf_xp_desc 0 = true ->
  read_blocks w (nx_xp_desc_base nxsb) 0 = [] ->
  locate_xp_desc w nxsb
  = ([Out (Desc_length 0); Out (Desc_contiguous (nx_xp_desc_base nxsb));
      Read Buf_xp_desc (nx_xp_desc_base nxsb) 0; Out Desc_loaded],
     Next []).
Proof.
  intros Hf Hm Hr.
  unfold locate_xp_desc, xp_desc_blocks_of, xp_desc_is_indirect, alloc, read.
  rewrite Hf. simpl. rewrite Hm. unfold bind at 3. simpl. rewrite Hr. reflexivity.
Qed.

(** X6.  A block 0 that records a descriptor area of zero blocks: once the
    empty area has been read, the program takes its block at index 0 for
    the latest superblock, and the run ends with an access outside the
    array, having read block 0 and nothing of the area. *)
Theorem empty_descriptor_area_is_invalid_access w t nxsb :
  read_block0 w = (t, Next nxsb) ->
  nx_xp_desc_blocks nxsb = 0 ->
  malloc_ok w Buf_xp_desc 0 = true ->
  read_blocks w (nx_xp_desc_base nxsb) 0 = [] ->
  snd (bootstrap w) = Stop InvalidAccess
  /\ reads (fst (bootstrap w))
     = [(Buf_nxsb, 0, 1); (Buf_xp_desc, nx_xp_desc_base nxsb, 0)].
Proof.
  intros H0 Hf Hm Hr.
  pose proof (read_block0_next w t nxsb H0) as Hr0.
  assert (E : bootstrap w
              = (t ++ [Out (Desc_length 0); Out (Desc_contiguous (nx_xp_desc_base nxsb));
                       Read Buf_xp_desc (nx_xp_desc_base nxsb) 0; Out Desc_loaded],
                 Stop InvalidAccess)).
  { unfold bootstrap, checkpoint_phase, materialize.
    rewrite (bind_next _ _ _ _ H0).
    rewrite (bind_next _ _ _ _ (locate_xp_desc_empty w nxsb Hf Hm Hr)).
    reflexivity. }
  rewrite E. split; [reflexivity |].
  simpl fst. rewrite reads_app, Hr0. reflexivity.
Qed.

(** The number of volumes, from any index and with any count so far. *)
Lemma count_file_systems_spec nxsb n i acc :
  acc <= count_file_systems nxsb n i acc <= acc + Z.of_nat n
  /\ (forall j, 0 <= j < count_file_systems nxsb n i acc - acc ->
                nx_fs_oid nxsb (i + j) <> 0)
  /\ (count_file_systems nxsb n i acc - acc < Z.of_nat n ->
      nx_fs_oid nxsb (i + (count_file_systems nxsb n i acc - acc)) = 0).
Proof.
  revert i acc. induction n as [| n IH]; intros i acc; simpl.
  - repeat split; try lia.
  - destruct (Z.eqb_spec (nx_fs_oid nxsb i) 0) as [Hz | Hnz].
    + split; [lia |]. split; [intros j Hj; lia |].
      intros _. now rewrite Z.sub_diag, Z.add_0_r.
    + destruct (IH (i + 1) (acc + 1)) as (Hb & Hnon & Hzero).
      split; [lia |]. split.
      * intros j Hj. destruct (Z.eq_dec j 0) as [-> | Hj0].
        -- now rewrite Z.add_0_r.
        -- replace (i + j) with (i + 1 + (j - 1)) by ring. apply Hnon. lia.
      * intros Hlt.
        replace (i + (count_file_systems nxsb n (i + 1) (acc + 1) - acc))
          with (i + 1 + (count_file_systems nxsb n (i + 1) (acc + 1) - (acc + 1)))
          by ring.
        apply Hzero. lia.
Qed.

(** X7.  The number of volumes the program lists is the length of the
    zero-free prefix of [nx_fs_oid], cut at [NX_MAX_FILE_SYSTEMS]: it lies
    between 0 and that maximum, every entry before it is not zero, and the
    entry at it is zero unless the maximum is reached. *)
Theorem num_file_systems_spec nxsb :
  0 <= count_file_systems nxsb (Z.to_nat NX_MAX_FILE_SYSTEMS) 0 0
    <= Z.max 0 NX_MAX_FILE_SYSTEMS
  /\ (forall j, 0 <= j < count_file_systems nxsb (Z.to_nat NX_MAX_FILE_SYSTEMS) 0 0 ->
                nx_fs_oid nxsb j <> 0)
  /\ (count_file_systems nxsb (Z.to_nat NX_MAX_FILE_SYSTEMS) 0 0 < NX_MAX_FILE_SYSTEMS ->
      nx_fs_oid nxsb (count_file_systems nxsb (Z.to_nat NX_MAX_FILE_SYSTEMS) 0 0) = 0).
Proof.
  destruct (count_file_systems_spec nxsb (Z.to_nat NX_MAX_FILE_SYSTEMS) 0 0)
    as (Hb & Hnon & Hzero).
  rewrite Z.sub_0_r in *. repeat split; try lia.
  - intros j Hj. exact (Hnon j Hj).
  - intros Hlt. apply Hzero. lia.
Qed.

End DescriptorField.

(** A container whose block 0 records an empty descriptor area. *)
Lemma empty_descriptor_area_is_invalid_access_witness :
  snd (bootstrap (Image.world_of Image.empty_area Image.TiB)) = Stop InvalidAccess
  /\ reads (fst (bootstrap (Image.world_of Image.empty_area Image.TiB)))
     = [(Buf_nxsb, 0, 1); (Buf_xp_desc, 1, 0)].
Proof.
  pose proof (empty_descriptor_area_is_invalid_access
                (Image.world_of Image.empty_area Image.TiB)
                (fst (read_block0 (Image.world_of Image.empty_area Image.TiB)))
                (Image.superblock 12 0 1 0 0 20 [])) as H.
  apply H.
  - vm_compute. reflexivity.
  - reflexivity.
  - reflexivity.
  - reflexivity.
Defined.

(** ** What each stage hands on *)

Section StageFacts.
Context {block : Type} {L : Layout block}.
Implicit Types (w : world block) (xp xp_obj xp_desc : list block).

Lemma reads_messages (t : list (event block)) :
  Forall is_message t -> reads t = [].
Proof.
  induction 1 as [| [buf addr count | m] t He _ IH]; simpl; auto. contradiction.
Qed.

Local Ltac quiet_step :=
  match goal with
  | |- Forall _ [] => apply Forall_nil
  | |- Forall _ (_ :: _) => apply Forall_cons; [exact I |]
  | |- Forall _ (fst (bind _ _)) => apply Forall_bind; [| intros ?]
  | |- Forall _ (fst (if ?c then _ else _)) => destruct c
  | |- Forall _ (fst (match ?x with _ => _ end)) => destruct x
  | |- Forall _ (fst (alloc _ _ _ _)) => unfold alloc
  | |- Forall _ (fst (index _ _)) => unfold index
  | |- Forall _ (fst (print _)) => unfold print
  | |- Forall _ (fst (emit _)) => unfold emit; simpl fst
  | |- Forall _ (fst (ret _)) => unfold ret; simpl fst
  | |- Forall _ (fst (stop _)) => unfold stop; simpl fst
  end.

Lemma scan_xp_desc_messages xp_desc rest i i_latest_nx :
  Forall is_message (fst (scan_xp_desc xp_desc rest i i_latest_nx)).
Proof.
  revert i i_latest_nx.
  induction rest as [| b rest IH]; intros i i_latest_nx; simpl;
    repeat first [apply IH | quiet_step].
Qed.

Lemma latest_nx_messages xp_desc : Forall is_message (fst (latest_nx xp_desc)).
Proof.
  unfold latest_nx. apply Forall_bind; [apply scan_xp_desc_messages | intros ?].
  repeat quiet_step.
Qed.

Lemma load_xp_messages w xp_desc n nxsb :
  Forall is_message (fst (load_xp w xp_desc n nxsb)).
Proof. unfold load_xp. repeat quiet_step. Qed.

Lemma count_mappings_messages xp n :
  Forall is_message (fst (count_mappings xp n)).
Proof.
  revert n. induction xp as [| b xp IH]; intros n; simpl;
    repeat first [apply IH | quiet_step].
Qed.

Lemma validate_xp_obj_messages xp_obj :
  Forall is_message (fst (validate_xp_obj xp_obj)).
Proof.
  induction xp_obj as [| o xp_obj IH]; simpl; repeat first [apply IH | quiet_step].
Qed.

Lemma describe_xp_obj_run xp_obj :
  snd (describe_xp_obj xp_obj) = Next tt
  /\ Forall is_message (fst (describe_xp_obj xp_obj)).
Proof.
  induction xp_obj as [| o xp_obj [IH1 IH2]]; simpl.
  - split; [reflexivity | constructor].
  - unfold bind, print, emit; simpl. split; [exact IH1 |].
    apply Forall_cons; [exact I | exact IH2].
Qed.

Lemma print_file_systems_run nxsb n i :
  snd (print_file_systems nxsb n i) = Next tt
  /\ Forall is_message (fst (print_file_systems nxsb n i)).
Proof.
  revert i. induction n as [| n IH]; intros i; simpl.
  - split; [reflexivity | constructor].
  - destruct (IH (i + 1)) as [IH1 IH2].
    unfold bind, print, emit; simpl. split; [exact IH1 |].
    apply Forall_cons; [exact I | exact IH2].
Qed.

Lemma read_block0_inv w t nxsb :
  read_block0 w = (t, Next nxsb) ->
  read_blocks w 0 1 = [nxsb] /\ reads t = [(Buf_nxsb, 0, 1)].
Proof.
  unfold read_block0, alloc, read.
  destruct (malloc_ok w Buf_nxsb nx_block_size); [| discriminate].
  unfold bind at 1 2. simpl.
  destruct (read_blocks w 0 1) as [| b [| b' bs]]; try discriminate.
  destruct (is_cksum_valid b), (is_nx_superblock b), (nx_magic b =? NX_MAGIC);
    simpl; intros [= <- <-]; split; reflexivity.
Qed.

Lemma locate_xp_desc_inv w nxsb t xp_desc :
  locate_xp_desc w nxsb = (t, Next xp_desc) ->
  xp_desc_is_indirect nxsb = false
  /\ xp_desc = read_blocks w (nx_xp_desc_base nxsb) (xp_desc_blocks_of nxsb)
  /\ Z.of_nat (length xp_desc) = xp_desc_blocks_of nxsb
  /\ reads t = [(Buf_xp_desc, nx_xp_desc_base nxsb, xp_desc_blocks_of nxsb)].
Proof.
  unfold locate_xp_desc, alloc, read.
  destruct (malloc_ok w Buf_xp_desc (xp_desc_blocks_of nxsb * nx_block_size));
    [| discriminate].
  destruct (xp_desc_is_indirect nxsb); [discriminate |].
  unfold bind at 1 2 3 4 5. simpl.
  destruct (Z.of_nat (length (read_blocks w (nx_xp_desc_base nxsb) (xp_desc_blocks_of nxsb)))
            =? xp_desc_blocks_of nxsb) eqn:E; simpl; [| discriminate].
  apply Z.eqb_eq in E. intros [= <- <-]. repeat split; auto.
Qed.

Lemma latest_nx_inv xp_desc t k nxsb :
  latest_nx xp_desc = (t, Next (k, nxsb)) ->
  nth_error xp_desc (Z.to_nat k) = Some nxsb /\ reads t = [].
Proof.
  intros H. split.
  - unfold latest_nx in H.
    apply bind_inv_next in H as (t1 & i & t2 & _ & H & ->).
    apply bind_inv_next in H as (t3 & b & t4 & Hidx & H & ->).
    unfold index in Hidx.
    destruct (nth_error xp_desc (Z.to_nat i)) as [b' |] eqn:En; [| discriminate].
    injection Hidx as <- <-.
    unfold bind, print, emit, ret in H. simpl in H. injection H as _ <- <-.
    exact En.
  - apply reads_messages. pose proof (latest_nx_messages xp_desc) as Hq.
    now rewrite H in Hq.
Qed.

Lemma load_xp_inv w xp_desc n nxsb t xp :
  load_xp w xp_desc n nxsb = (t, Next xp) ->
  copy_checkpoint xp_desc n (nx_xp_desc_index nxsb) (nx_xp_desc_len nxsb) = Some xp
  /\ reads t = [].
Proof.
  intros H. split.
  - unfold load_xp, alloc in H.
    destruct (malloc_ok w Buf_xp (nx_xp_desc_len nxsb * nx_block_size));
      [| discriminate].
    destruct (copy_checkpoint xp_desc n (nx_xp_desc_index nxsb) (nx_xp_desc_len nxsb));
      [| discriminate].
    unfold bind, print, emit, ret in H. simpl in H. now injection H as _ <-.
  - apply reads_messages. pose proof (load_xp_messages w xp_desc n nxsb) as Hq.
    now rewrite H in Hq.
Qed.

(** X8.  What a run holds once the checkpoint is copied: block 0 was read
    and its flag for an indirect area is clear; the descriptor area is the
    blocks that were read from the base address block 0 names, as many as
    its masked count; the selected superblock is a block of that area; and
    the checkpoint has exactly as many blocks as the selected superblock
    records, all of them blocks of the area.  The run has made two calls
    of [read_blocks] until then: block 0 and the area. *)
Theorem materialize_next w t nxsb xp :
  materialize w = (t, Next (nxsb, xp)) ->
  exists nxsb0 xp_desc,
    read_blocks w 0 1 = [nxsb0]
    /\ xp_desc_is_indirect nxsb0 = false
    /\ xp_desc = read_blocks w (nx_xp_desc_base nxsb0) (xp_desc_blocks_of nxsb0)
    /\ Z.of_nat (length xp_desc) = xp_desc_blocks_of nxsb0
    /\ In nxsb xp_desc
    /\ Z.of_nat (length xp) = nx_xp_desc_len nxsb
    /\ (forall b, In b xp -> In b xp_desc)
    /\ reads t = [(Buf_nxsb, 0, 1);
                  (Buf_xp_desc, nx_xp_desc_base nxsb0, xp_desc_blocks_of nxsb0)].
Proof.
  intros H. unfold materialize in H.
  apply bind_inv_next in H as (t1 & nxsb0 & t2 & H0 & H & ->).
  apply bind_inv_next in H as (t3 & xp_desc & t4 & Hl & H & ->).
  apply bind_inv_next in H as (t5 & [k sel] & t6 & Hsel & H & ->).
  apply bind_inv_next in H as (t7 & xp' & t8 & Hxp & H & ->).
  simpl in H, Hxp. unfold ret in H. injection H as <- <- <-.
  apply read_block0_inv in H0 as [Hb0 Hr0].
  apply locate_xp_desc_inv in Hl as (Hind & Hdesc & Hlen & Hr1).
  apply latest_nx_inv in Hsel as [Hnth Hr2].
  apply load_xp_inv in Hxp as [Hcopy Hr3].
  pose proof (copy_checkpoint_length _ _ _ _ _ (nx_xp_desc_len_u32 sel) Hcopy)
    as Hxlen.
  pose proof (copy_checkpoint_In _ _ _ _ _ Hcopy) as Hxin.
  exists nxsb0, xp_desc. repeat split; auto.
  - eapply nth_error_In; eassumption.
  - rewrite !reads_app, Hr0, Hr1, Hr2, Hr3. reflexivity.
Qed.

Lemma read_xp_obj_no_mappings w cap xp acc :
  sum_cpm_count xp = 0 -> read_xp_obj w cap xp acc = ([], Next acc).
Proof.
  revert acc. induction xp as [| b xp IH]; intros acc Hs; simpl; [reflexivity |].
  simpl in Hs. pose proof (sum_cpm_count_nonneg xp) as Hn.
  pose proof (cpm_count_u32 b) as Hc.
  destruct (is_checkpoint_map_phys b).
  - replace (cpm_count b) with 0 by lia. simpl.
    unfold bind, ret. simpl. rewrite IH by lia. reflexivity.
  - apply IH. lia.
Qed.

(** X9.  A checkpoint whose checkpoint maps record no mapping at all (or
    that holds no checkpoint map): line 225 assigns the count to
    [num_read] inside the assertion instead of comparing them, so, once
    the empty buffer is allocated, the run ends there with a failed
    assertion; it has fetched nothing. *)
Theorem load_xp_obj_no_mappings w xp :
  sum_cpm_count xp = 0 ->
  malloc_ok w Buf_xp_obj 0 = true ->
  snd (load_xp_obj w xp) = Stop AssertionFailed
  /\ reads (fst (load_xp_obj w xp)) = [].
Proof.
  intros Hs Hm. unfold load_xp_obj.
  pose proof (count_mappings_next xp 0 ltac:(lia)) as Hc.
  pose proof (reads_messages _ (count_mappings_messages xp 0)) as Hq.
  rewrite Hs in Hc. change (u32 (0 + 0)) with 0 in Hc.
  destruct (count_mappings xp 0) as [t0 s0]. simpl in Hc, Hq. subst s0.
  unfold bind at 1. simpl snd. simpl fst.
  unfold alloc. change (0 * nx_block_size) with 0. rewrite Hm.
  rewrite (read_xp_obj_no_mappings w 0 xp [] Hs).
  simpl. split; [reflexivity |]. now rewrite reads_app, Hq.
Qed.

(** X10.  Whenever lines 193-225 hand on the ephemeral objects, there is at
    least one of them and fewer than [2^32]; their number is the sum of the
    entry counts of the checkpoint maps; the reads made are exactly the
    single-block reads at the addresses of the mappings, in collection
    order; and each object is the block delivered by the read at the same
    position. *)
Theorem load_xp_obj_next w xp t xp_obj :
  load_xp_obj w xp = (t, Next xp_obj) ->
  0 < sum_cpm_count xp < 2 ^ 32
  /\ Z.of_nat (length xp_obj) = sum_cpm_count xp
  /\ reads t = fetches (mappings_of xp)
  /\ Forall2 (fun paddr o => read_blocks w paddr 1 = [o]) (mappings_of xp) xp_obj.
Proof.
  intros H. unfold load_xp_obj in H.
  apply bind_inv_next in H as (t1 & n & t2 & Hcount & H & ->).
  apply bind_inv_next in H as (t3 & [] & t4 & Hp1 & H & ->).
  apply bind_inv_next in H as (t5 & [] & t6 & Halloc & H & ->).
  apply bind_inv_next in H as (t7 & objs & t8 & Hread & H & ->).
  apply bind_inv_next in H as (t9 & [] & t10 & Hp2 & H & ->).
  apply bind_inv_next in H as (t11 & [] & t12 & Hassert & H & ->).
  unfold ret in H. injection H as <- <-.
  pose proof (count_mappings_next xp 0 ltac:(lia)) as Hc.
  pose proof (reads_messages _ (count_mappings_messages xp 0)) as Hq.
  rewrite Hcount in Hc, Hq. simpl in Hc, Hq. injection Hc as ->.
  pose proof (sum_cpm_count_nonneg xp) as Hs.
  pose proof (u32_le _ Hs) as Hle.
  pose proof (u32_range (sum_cpm_count xp)) as Hrange.
  apply read_xp_obj_next in Hread as (objs' & -> & Hlen & Hr & Hall & Hcap);
    [| simpl; lia].
  simpl in Hcap, Hlen.
  assert (Hn : u32 (sum_cpm_count xp) <> 0).
  { destruct (Z.eqb_spec (u32 (sum_cpm_count xp)) 0) as [E | E]; [| exact E].
    discriminate. }
  assert (Hr3 : reads t3 = []).
  { unfold print, emit in Hp1. now injection Hp1 as <-. }
  assert (Hr5 : reads t5 = []).
  { unfold alloc in Halloc.
    destruct (malloc_ok w Buf_xp_obj (u32 (sum_cpm_count xp) * nx_block_size));
      [| discriminate].
    unfold ret in Halloc. now injection Halloc as <-. }
  assert (Hr9 : reads t9 = []).
  { unfold print, emit in Hp2. now injection Hp2 as <-. }
  assert (Hr11 : reads t11 = []).
  { destruct (u32 (sum_cpm_count xp) =? 0); [discriminate |].
    unfold ret in Hassert. now injection Hassert as <-. }
  repeat split; try lia; auto.
  rewrite !reads_app, Hq, Hr3, Hr5, Hr, Hr9, Hr11. simpl. now rewrite app_nil_r.
Qed.

End StageFacts.

(** The healthy container: the checkpoint of transaction 12. *)
Lemma materialize_next_witness :
  exists nxsb0 xp_desc,
    read_blocks (Image.world_of Image.healthy Image.TiB) 0 1 = [nxsb0]
    /\ Z.of_nat (length xp_desc) = xp_desc_blocks_of nxsb0
    /\ In (Image.superblock 12 4 1 2 2 20 [1026; 1028]) xp_desc
    /\ reads (fst (materialize (Image.world_of Image.healthy Image.TiB)))
       = [(Buf_nxsb, 0, 1);
          (Buf_xp_desc, nx_xp_desc_base nxsb0, xp_desc_blocks_of nxsb0)].
Proof.
  destruct (materialize_next (Image.world_of Image.healthy Image.TiB)
              (fst (materialize (Image.world_of Image.healthy Image.TiB)))
              (Image.superblock 12 4 1 2 2 20 [1026; 1028])
              (skipn 2 Image.healthy_area))
    as (nxsb0 & xp_desc & H1 & _ & _ & H4 & H5 & _ & _ & H8);
    [vm_compute; reflexivity |].
  exists nxsb0, xp_desc. repeat split; assumption.
Defined.

(** A checkpoint that consists of a superblock only. *)
Lemma load_xp_obj_no_mappings_witness :
  snd (load_xp_obj (Image.world_of Image.healthy Image.TiB)
                   [Image.superblock 12 4 1 3 1 20 []])
  = Stop AssertionFailed
  /\ reads (fst (load_xp_obj (Image.world_of Image.healthy Image.TiB)
                             [Image.superblock 12 4 1 3 1 20 []])) = [].
Proof.
  apply (load_xp_obj_no_mappings (Image.world_of Image.healthy Image.TiB)
           [Image.superblock 12 4 1 3 1 20 []]); reflexivity.
Defined.

(** The checkpoint of transaction 12 of the healthy container. *)
Lemma load_xp_obj_next_witness :
  0 < sum_cpm_count (skipn 2 Image.healthy_area) < 2 ^ 32
  /\ reads (fst (load_xp_obj (Image.world_of Image.healthy Image.TiB)
                             (skipn 2 Image.healthy_area)))
     = fetches (mappings_of (skipn 2 Image.healthy_area)).
Proof.
  destruct (load_xp_obj_next (Image.world_of Image.healthy Image.TiB)
              (skipn 2 Image.healthy_area)
              (fst (load_xp_obj (Image.world_of Image.healthy Image.TiB)
                                (skipn 2 Image.healthy_area)))
              [Image.ephemeral true 12; Image.ephemeral true 12])
    as (H1 & _ & H3 & _); [vm_compute; reflexivity |].
  split; assumption.
Defined.

(** ** A read that fails while the ephemeral objects are fetched *)

Section FetchFailure.
Context {block : Type} {L : Layout block}.
Implicit Types (w : world block) (xp xp_obj : list block).

Lemma read_mappings_returned w cap xp_map n j acc t c :
  0 <= j ->
  read_mappings w cap xp_map n j acc = (t, Stop (Returned c)) ->
  c = -1
  /\ exists pre paddr post t',
       firstn n (skipn (Z.to_nat j) (cpm_map xp_map)) = pre ++ paddr :: post
       /\ t = t' ++ [Out (Abort_read_block paddr)]
       /\ reads t = fetches (pre ++ [paddr])
       /\ (forall o, read_blocks w paddr 1 <> [o])
       /\ Forall (fun p => exists o, read_blocks w p 1 = [o]) pre.
Proof.
  revert j acc t. induction n as [| n IH]; intros j acc t Hj; simpl.
  - discriminate.
  - destruct (nth_error (cpm_map xp_map) (Z.to_nat j)) as [paddr |] eqn:En;
      [| discriminate].
    destruct (Z.of_nat (length acc) <? cap); [| discriminate].
    unfold read, bind at 1. simpl.
    destruct (read_blocks w paddr 1) as [| o [| o' bs]] eqn:Er.
    + unfold bind, print, emit, stop. simpl. intros [= <- <-].
      split; [reflexivity |].
      rewrite (skipn_nth_error _ _ _ En). cbn [firstn].
      exists [], paddr, (firstn n (skipn (S (Z.to_nat j)) (cpm_map xp_map))),
        [Read Buf_xp_obj paddr 1].
      repeat split; auto. intros o. rewrite Er. discriminate.
    + destruct (read_mappings w cap xp_map n (j + 1) (acc ++ [o])) as [t2 s2] eqn:Erec.
      simpl. intros [= <- ->].
      destruct (IH (j + 1) (acc ++ [o]) t2 ltac:(lia) Erec)
        as (-> & pre & p & post & t' & Hsplit & -> & Hreads & Hfail & Hok).
      replace (Z.to_nat (j + 1)) with (S (Z.to_nat j)) in Hsplit by lia.
      split; [reflexivity |].
      rewrite (skipn_nth_error _ _ _ En). cbn [firstn].
      exists (paddr :: pre), p, post, (Read Buf_xp_obj paddr 1 :: t').
      rewrite Hsplit. repeat split; auto.
      * simpl. now rewrite Hreads.
      * constructor; [now exists o | exact Hok].
    + unfold bind, print, emit, stop. simpl. intros [= <- <-].
      split; [reflexivity |].
      rewrite (skipn_nth_error _ _ _ En). cbn [firstn].
      exists [], paddr, (firstn n (skipn (S (Z.to_nat j)) (cpm_map xp_map))),
        [Read Buf_xp_obj paddr 1].
      repeat split; auto. intros x. rewrite Er. discriminate.
Qed.

(** X11.  When the loading loop returns instead of running to its end, the
    status is -1 and the cause is a mapping whose block could not be read:
    the mappings before it, in collection order, were each read with
    success, the read at its address is the last call of [read_blocks],
    the message that closes the run names that address, and no later
    mapping is tried. *)
Theorem read_xp_obj_returned w cap xp acc t c :
  read_xp_obj w cap xp acc = (t, Stop (Returned c)) ->
  c = -1
  /\ exists pre paddr post t',
       mappings_of xp = pre ++ paddr :: post
       /\ t = t' ++ [Out (Abort_read_block paddr)]
       /\ reads t = fetches (pre ++ [paddr])
       /\ (forall o, read_blocks w paddr 1 <> [o])
       /\ Forall (fun p => exists o, read_blocks w p 1 = [o]) pre.
Proof.
  revert acc t. induction xp as [| b xp IH]; intros acc t; simpl.
  - discriminate.
  - destruct (is_checkpoint_map_phys b).
    + intros H. apply bind_inv_stop in H as [H | (t1 & acc' & t2 & H1 & H2 & ->)].
      * apply read_mappings_returned in H
          as (-> & pre & p & post & t' & Hsplit & -> & Hreads & Hfail & Hok); [| lia].
        simpl skipn in Hsplit. split; [reflexivity |].
        exists pre, p, (post ++ mappings_of xp), t'.
        rewrite Hsplit, <- app_assoc. repeat split; auto.
      * apply read_mappings_next in H1
          as (objs & -> & Hlen & Hr1 & Hm1 & Hall & _); [| lia].
        simpl skipn in *.
        apply IH in H2
          as (-> & pre & p & post & t' & Hsplit & -> & Hreads & Hfail & Hok).
        split; [reflexivity |].
        exists (firstn (Z.to_nat (cpm_count b)) (cpm_map b) ++ pre), p, post, (t1 ++ t').
        rewrite Hsplit, <- !app_assoc. repeat split; auto.
        -- rewrite reads_app, Hr1, Hreads. unfold fetches. now rewrite <- map_app.
        -- apply Forall_app. split; [| exact Hok].
           clear - Hall. induction Hall as [| p' o ps os Hp _ IHall]; constructor; eauto.
    + intros H. apply IH in H
        as (-> & pre & p & post & t' & Hsplit & -> & Hreads & Hfail & Hok).
      split; [reflexivity |]. exists pre, p, post, t'. repeat split; auto.
Qed.

End FetchFailure.

(** Three mappings, of which the block of the second cannot be read. *)
Lemma read_xp_obj_returned_witness :
  exists pre paddr post,
    mappings_of Image.xp_three = pre ++ paddr :: post
    /\ reads (fst (read_xp_obj (Image.world_of Image.unreadable_11 Image.TiB) 3
                               Image.xp_three []))
       = fetches (pre ++ [paddr])
    /\ (forall o, read_blocks (Image.world_of Image.unreadable_11 Image.TiB) paddr 1
                  <> [o]).
Proof.
  destruct (read_xp_obj_returned (Image.world_of Image.unreadable_11 Image.TiB) 3
              Image.xp_three []
              (fst (read_xp_obj (Image.world_of Image.unreadable_11 Image.TiB) 3
                                Image.xp_three []))
              (-1))
    as (_ & pre & paddr & post & t' & H1 & _ & H3 & H4 & _);
    [vm_compute; reflexivity |].
  exists pre, paddr, post. repeat split; assumption.
Defined.

(** ** The reads of the object map and of its B-tree *)

Section OmapFacts.
Context {block : Type} {L : Layout block}.
Implicit Types (w : world block) (xp xp_obj : list block) (nxsb : block).

Lemma Forall_bind_next {A B} (P : event block -> Prop)
      (m : run block A) (f : A -> run block B) :
  Forall P (fst m) -> (forall a, snd m = Next a -> Forall P (fst (f a))) ->
  Forall P (fst (bind m f)).
Proof.
  intros Hm Hf. destruct m as [t [a | o]]; unfold bind; simpl in *.
  - apply Forall_app. auto.
  - assumption.
Qed.

Lemma messages_omap_read_ok w nxsb (t : list (event block)) :
  Forall is_message t -> Forall (omap_read_ok w nxsb) t.
Proof.
  apply Forall_impl. intros [buf addr count | m]; simpl; [contradiction | auto].
Qed.

Lemma forallb_false_In {A} (f : A -> bool) (l : list A) :
  forallb f l = false -> exists x, In x l /\ f x = false.
Proof.
  induction l as [| a l IH]; simpl; [discriminate |].
  destruct (f a) eqn:Ea; simpl.
  - intros H. destruct (IH H) as (x & Hin & Hx). eauto.
  - intros _. eauto.
Qed.

Lemma omap_phase_reads_ok w nxsb xp_obj :
  Forall (omap_read_ok w nxsb) (fst (omap_phase w nxsb xp_obj)).
Proof.
  unfold omap_phase.
  apply Forall_bind;
    [apply messages_omap_read_ok, validate_xp_obj_messages | intros _].
  apply Forall_bind; [repeat constructor | intros _].
  apply Forall_bind;
    [apply messages_omap_read_ok, describe_xp_obj_run | intros _].
  apply Forall_bind; [repeat constructor | intros _].
  apply Forall_bind;
    [destruct (malloc_ok w Buf_nx_omap nx_block_size); constructor | intros _].
  apply Forall_bind_next.
  { unfold read, bind, emit, ret. simpl. apply Forall_cons; [| constructor].
    simpl. left. auto. }
  intros bs Hbs. unfold read, bind, emit, ret in Hbs. simpl in Hbs.
  injection Hbs as <-.
  destruct (read_blocks w (nx_omap_oid nxsb) 1) as [| nx_omap [| b' bs]] eqn:Er;
    try solve [repeat constructor].
  apply Forall_bind; [repeat constructor | intros _].
  destruct (is_cksum_valid nx_omap) eqn:Ev; simpl negb; cbv iota;
    [| repeat constructor].
  apply Forall_bind; [repeat constructor | intros _].
  apply Forall_bind; [repeat constructor | intros _].
  destruct (Z.eqb_spec (Z.land (om_tree_type nx_omap) OBJ_STORAGETYPE_MASK) OBJ_PHYSICAL)
    as [Ep | Ep]; simpl negb; cbv iota; [| repeat constructor].
  apply Forall_bind;
    [unfold alloc; destruct (malloc_ok w Buf_nx_omap_btree nx_block_size);
     repeat constructor | intros _].
  apply Forall_bind.
  { unfold read, bind, emit, ret. simpl. apply Forall_cons; [| constructor].
    simpl. right. repeat split; auto. exists nx_omap. auto. }
  intros bs'. destruct bs' as [| nx_omap_btree [| b'' bs'']]; try solve [repeat constructor].
  apply Forall_bind; [repeat constructor | intros _].
  apply Forall_bind; [repeat constructor | intros _].
  apply Forall_bind; [repeat constructor | intros _].
  cbv zeta.
  apply Forall_bind; [repeat constructor | intros _].
  apply Forall_bind;
    [apply messages_omap_read_ok, print_file_systems_run | intros _].
  repeat constructor.
Qed.

(** X12.  The container object map is read only after every ephemeral
    object of the checkpoint has passed the validation of its checksum, at
    the address [nx_omap_oid] of the selected superblock, as a single
    block. *)
Theorem omap_read_only_after_validation w addr count :
  In (Read Buf_nx_omap addr count) (fst (bootstrap w)) ->
  exists t nxsb xp_obj,
    checkpoint_phase w = (t, Next (nxsb, xp_obj))
    /\ forallb is_cksum_valid xp_obj = true
    /\ addr = nx_omap_oid nxsb /\ count = 1.
Proof.
  unfold bootstrap. pose proof (checkpoint_phase_reads w) as Hq.
  rewrite Forall_forall in Hq.
  destruct (checkpoint_phase w) as [t [[nxsb xp_obj] | o]] eqn:E;
    unfold bind; simpl in *; intros Hin.
  - apply in_app_or in Hin as [Hin | Hin].
    + exfalso. destruct (Hq _ Hin) as [Hne _]. now apply Hne.
    + exists t, nxsb, xp_obj. split; [reflexivity |].
      destruct (forallb is_cksum_valid xp_obj) eqn:Ev.
      * pose proof (omap_phase_reads_ok w nxsb xp_obj) as Hok.
        rewrite Forall_forall in Hok. specialize (Hok _ Hin). simpl in Hok.
        destruct Hok as [(_ & -> & ->) | (Hb & _)]; [auto | discriminate].
      * exfalso. apply forallb_false_In in Ev as (o & Ho & Hbad).
        rewrite (omap_phase_bad w nxsb xp_obj o Ho Hbad) in Hin. simpl in Hin.
        destruct Hin as [H | [H | []]]; discriminate.
  - exfalso. destruct (Hq _ Hin) as [Hne _]. now apply Hne.
Qed.

(** X13.  The root of the B-tree of the object map is read only when the
    block read as the object map has a valid checksum and names a B-tree
    of the physical storage type, after every ephemeral object has passed
    its validation; it is read at the address [om_tree_oid] of that object
    map, as a single block. *)
Theorem btree_read_only_from_valid_omap w addr count :
  In (Read Buf_nx_omap_btree addr count) (fst (bootstrap w)) ->
  exists t nxsb xp_obj nx_omap,
    checkpoint_phase w = (t, Next (nxsb, xp_obj))
    /\ forallb is_cksum_valid xp_obj = true
    /\ read_blocks w (nx_omap_oid nxsb) 1 = [nx_omap]
    /\ is_cksum_valid nx_omap = true
    /\ Z.land (om_tree_type nx_omap) OBJ_STORAGETYPE_MASK = OBJ_PHYSICAL
    /\ addr = om_tree_oid nx_omap /\ count = 1.
Proof.
  unfold bootstrap. pose proof (checkpoint_phase_reads w) as Hq.
  rewrite Forall_forall in Hq.
  destruct (checkpoint_phase w) as [t [[nxsb xp_obj] | o]] eqn:E;
    unfold bind; simpl in *; intros Hin.
  - apply in_app_or in Hin as [Hin | Hin].
    + exfalso. destruct (Hq _ Hin) as [_ Hne]. now apply Hne.
    + destruct (forallb is_cksum_valid xp_obj) eqn:Ev.
      * pose proof (omap_phase_reads_ok w nxsb xp_obj) as Hok.
        rewrite Forall_forall in Hok. specialize (Hok _ Hin). simpl in Hok.
        destruct Hok as [(Hb & _) | (_ & -> & om & Hr & Hv & Hp & ->)];
          [discriminate |].
        exists t, nxsb, xp_obj, om. repeat split; auto.
      * exfalso. apply forallb_false_In in Ev as (o & Ho & Hbad).
        rewrite (omap_phase_bad w nxsb xp_obj o Ho Hbad) in Hin. simpl in Hin.
        destruct Hin as [H | [H | []]]; discriminate.
  - exfalso. destruct (Hq _ Hin) as [_ Hne]. now apply Hne.
Qed.

(** X14.  A run completes, with status 0 and the closing message of
    completion, whenever the ephemeral objects were fetched and all
    validate, the object map can be read, validates and names a physical
    B-tree, and the root of that B-tree can be read; the checksum of the
    root does not matter.  After the fetches such a run reads the object
    map and the root, one block each, and nothing else. *)
Theorem bootstrap_completes w t nxsb xp_obj nx_omap nx_omap_btree :
  checkpoint_phase w = (t, Next (nxsb, xp_obj)) ->
  forallb is_cksum_valid xp_obj = true ->
  malloc_ok w Buf_nx_omap nx_block_size = true ->
  read_blocks w (nx_omap_oid nxsb) 1 = [nx_omap] ->
  is_cksum_valid nx_omap = true ->
  Z.land (om_tree_type nx_omap) OBJ_STORAGETYPE_MASK = OBJ_PHYSICAL ->
  malloc_ok w Buf_nx_omap_btree nx_block_size = true ->
  read_blocks w (om_tree_oid nx_omap) 1 = [nx_omap_btree] ->
  snd (bootstrap w) = Stop (Returned 0)
  /\ kind_of_run (bootstrap w) = Some Completed
  /\ reads (fst (bootstrap w))
     = reads t ++ [(Buf_nx_omap, nx_omap_oid nxsb, 1);
                   (Buf_nx_omap_btree, om_tree_oid nx_omap, 1)].
Proof.
  intros Hphase Hv Hm1 Hr1 Hv1 Hp Hm2 Hr2.
  destruct (describe_xp_obj_run xp_obj) as [Hd1 Hd2].
  destruct (print_file_systems_run nxsb
              (Z.to_nat (count_file_systems nxsb (Z.to_nat NX_MAX_FILE_SYSTEMS) 0 0)) 0)
    as [Hf1 Hf2].
  apply reads_messages in Hd2, Hf2.
  destruct (describe_xp_obj xp_obj) as [td sd] eqn:Ed.
  destruct (print_file_systems nxsb
              (Z.to_nat (count_file_systems nxsb (Z.to_nat NX_MAX_FILE_SYSTEMS) 0 0)) 0)
    as [tf sf] eqn:Ef.
  simpl in Hd1, Hd2, Hf1, Hf2. subst sd sf.
  assert (E : exists T,
             omap_phase w nxsb xp_obj = (T ++ [Out End_all_done], Stop (Returned 0))
             /\ reads T = [(Buf_nx_omap, nx_omap_oid nxsb, 1);
                           (Buf_nx_omap_btree, om_tree_oid nx_omap, 1)]).
  { unfold omap_phase, alloc, read.
    rewrite (validate_xp_obj_good xp_obj Hv), Ed, Hm1, Hr1.
    unfold bind, print, emit, ret, stop. simpl.
    rewrite Hv1, Hp, Z.eqb_refl, Hm2. simpl. rewrite Hr2. simpl.
    rewrite Ef. simpl.
    eexists (_ :: td ++ _ :: _ :: _ :: _ :: _ :: _ :: _ :: _ :: _ :: _ :: tf).
    split.
    - f_equal. simpl. f_equal. rewrite <- app_assoc. simpl. reflexivity.
    - simpl. rewrite reads_app, Hd2. simpl. now rewrite Hf2. }
  destruct E as (T & E & HT).
  unfold bootstrap. rewrite (bind_next _ _ _ _ Hphase). simpl fst; simpl snd.
  rewrite E. simpl. repeat split.
  - unfold kind_of_run. simpl. rewrite app_assoc, last_message_app_out. reflexivity.
  - rewrite app_assoc, reads_app, reads_app, HT. simpl. now rewrite app_nil_r.
Qed.

End OmapFacts.

(** The healthy container: both reads of the last stage. *)
Lemma omap_read_only_after_validation_witness :
  exists t nxsb xp_obj,
    checkpoint_phase (Image.world_of Image.healthy Image.TiB) = (t, Next (nxsb, xp_obj))
    /\ forallb is_cksum_valid xp_obj = true
    /\ 20 = nx_omap_oid nxsb.
Proof.
  destruct (omap_read_only_after_validation
              (Image.world_of Image.healthy Image.TiB) 20 1)
    as (t & nxsb & xp_obj & H1 & H2 & H3 & _).
  - vm_compute. do 22 right. left. reflexivity.
  - exists t, nxsb, xp_obj. repeat split; assumption.
Defined.

Lemma btree_read_only_from_valid_omap_witness :
  exists nxsb nx_omap,
    read_blocks (Image.world_of Image.healthy Image.TiB) (nx_omap_oid nxsb) 1 = [nx_omap]
    /\ is_cksum_valid nx_omap = true
    /\ 21 = om_tree_oid nx_omap.
Proof.
  destruct (btree_read_only_from_valid_omap
              (Image.world_of Image.healthy Image.TiB) 21 1)
    as (t & nxsb & xp_obj & om & _ & _ & H3 & H4 & _ & H6 & _).
  - vm_compute. do 26 right. left. reflexivity.
  - exists nxsb, om. repeat split; assumption.
Defined.

Lemma bootstrap_completes_witness :
  snd (bootstrap (Image.world_of Image.healthy Image.TiB)) = Stop (Returned 0)
  /\ kind_of_run (bootstrap (Image.world_of Image.healthy Image.TiB)) = Some Completed.
Proof.
  destruct (bootstrap_completes (Image.world_of Image.healthy Image.TiB)
              (fst (checkpoint_phase (Image.world_of Image.healthy Image.TiB)))
              (Image.superblock 12 4 1 2 2 20 [1026; 1028])
              [Image.ephemeral true 12; Image.ephemeral true 12]
              (Image.object_map 12 Image.STORAGE_PHYSICAL 21)
              (Image.btree_root 12))
    as (H1 & H2 & _);
    [vm_compute; reflexivity | reflexivity | reflexivity | reflexivity
     | reflexivity | reflexivity | reflexivity | reflexivity |].
  split; assumption.
Defined.
